(** * Footballers_overall_database: the rating pipeline

    A shallow embedding of the staged pipeline
      3_process_match_events.py  ->  4_aggregate_player_stats.py
                                 ->  5_calculate_player_attributes.py
    and of the composite-rating part of map_stats_bomb_db_fixed.py.

    Numbers.  A pandas float64 cell is modelled as [option Q]: [None] is
    NaN (a NULL read back from SQLite), [Some q] a finite value, and the
    arithmetic on finite values is exact.  Infinities are not represented:
    the pipeline divides by [minutes_played / 90] and by [rate + 0.1] only,
    stage 3 never emits a row with zero minutes, and rates are
    non-negative.  Where the model divides by an exact zero it yields NaN.

    Randomness.  NumPy's global generator is an explicit state threaded
    through the run ([RandomState]); [randint] follows the documented
    contract of np.random.randint (half-open interval). *)

From Stdlib Require Import String ZArith QArith Qround Qminmax List Bool Lia Lqa.
From Stdlib Require Import Sorting.Permutation Sorting.Sorted.
Import ListNotations.

Local Open Scope Z_scope.
Local Open Scope Q_scope.

(* ================================================================== *)
(** ** Cells, NaN-propagating arithmetic and rounding *)

Module Num.

Definition cell := option Q.

Definition lift2 (f : Q -> Q -> Q) (a b : cell) : cell :=
  match a, b with
  | Some x, Some y => Some (f x y)
  | _, _ => None
  end.

Definition nadd : cell -> cell -> cell := lift2 Qplus.
Definition nsub : cell -> cell -> cell := lift2 Qminus.
Definition nmul : cell -> cell -> cell := lift2 Qmult.

(** [a / b] on cells; [0/0] is NaN in NumPy. *)
Definition ndiv (a b : cell) : cell :=
  match a, b with
  | Some x, Some y => if Qeq_bool y 0 then None else Some (x / y)
  | _, _ => None
  end.

(** [series.fillna(d)] on one cell. *)
Definition fillna (d : Q) (c : cell) : Q :=
  match c with
  | Some q => q
  | None => d
  end.

(** The cell holds a number equal to [q]. *)
Definition cell_is (c : cell) (q : Q) : Prop :=
  match c with
  | Some x => x == q
  | None => False
  end.

(** Round half to even, as Python's [round] and NumPy's [rint] do. *)
Definition round_half_even (q : Q) : Z :=
  let f := Qfloor q in
  match Qcompare (q - inject_Z f) (1 # 2) with
  | Lt => f
  | Gt => (f + 1)%Z
  | Eq => if Z.even f then f else (f + 1)%Z
  end.

(** [round(x, 2)] / [Series.round(2)]. *)
Definition round2 (q : Q) : Q := Qmake (round_half_even (q * 100)) 100.

(** Python's builtin [max(a, b)] and [min(a, b)]: the first argument is
    kept unless the second is strictly better. *)
Definition py_max (a b : Q) : Q := if Qlt_le_dec a b then b else a.
Definition py_min (a b : Q) : Q := if Qlt_le_dec b a then b else a.

End Num.
Import Num.

(* ================================================================== *)
(** ** The percentile scaler (5_calculate_player_attributes.py, 41-51) *)

Module Scaler.

(** [Series.sort_values]: insertion into an ascending list. *)
Fixpoint insert (x : Q) (l : list Q) : list Q :=
  match l with
  | [] => [x]
  | y :: t => if Qle_bool x y then x :: l else y :: insert x t
  end.

Definition sort_values (s : list Q) : list Q := fold_right insert [] s.

(** 1-based positions, in the ascending order, of the entries tied
    with [x]. *)
Fixpoint tie_positions (x : Q) (sorted : list Q) (pos : Z) : list Z :=
  match sorted with
  | [] => []
  | y :: t =>
      if Qeq_bool y x then pos :: tie_positions x t (pos + 1)%Z
      else tie_positions x t (pos + 1)%Z
  end.

Definition zsum (l : list Z) : Z := fold_right Z.add 0%Z l.

(** [Series.rank()] with the default [method='average']: the mean of
    the positions a tie group occupies in the sorted order. *)
Definition rank_average (s : list Q) (x : Q) : Q :=
  let ps := tie_positions x (sort_values s) 1 in
  inject_Z (zsum ps) / inject_Z (Z.of_nat (length ps)).

(** [Series.rank(pct=True)]: ranks divided by the number of values. *)
Definition rank_pct (s : list Q) : list Q :=
  map (fun x => rank_average s x / inject_Z (Z.of_nat (length s))) s.

(** [s.min()] and [s.max()]; the series is never empty where they are
    used (an empty population stops the stage beforehand). *)
Definition smin (s : list Q) : Q :=
  match s with
  | [] => 0
  | x :: t => fold_left Qmin t x
  end.

Definition smax (s : list Q) : Q :=
  match s with
  | [] => 0
  | x :: t => fold_left Qmax t x
  end.

(** [minutes_played >= min_minutes]; a comparison with NaN is False. *)
Definition qualifies (min_minutes : Q) (m : cell) : bool :=
  match m with
  | Some q => Qle_bool min_minutes q
  | None => false
  end.

(** [mask.sum()]. *)
Definition mask_sum (mask : list bool) : nat :=
  length (filter (fun b => b) mask).

(** [s[mask]]: boolean indexing. *)
Fixpoint boolean_index (s : list Q) (mask : list bool) : list Q :=
  match s, mask with
  | x :: s', b :: mask' =>
      if b then x :: boolean_index s' mask' else boolean_index s' mask'
  | _, _ => []
  end.

Definition eps : Q := 1 # 100000000.

Definition percentile_scale (s : list Q) : list Q :=
  map (fun r => round2 (1 + r * 19)) (rank_pct s).

Definition minmax_scale (s : list Q) : list Q :=
  map (fun x => round2 ((x - smin s) / (smax s - smin s + eps) * 19 + 1)) s.

(** [percentile_to_1_20(series, min_minutes)]; [minutes] is the
    [minutes_played] column of the global data frame [df_stats]. *)
Definition percentile_to_1_20 (minutes : list cell) (series : list cell)
                              (min_minutes : Q) : list Q :=
  let s := map (fillna 0) series in
  let mask := map (qualifies min_minutes) minutes in
  if (0 <? mask_sum mask)%nat then
    let baseline := boolean_index s mask in
    if (0 <? length baseline)%nat then percentile_scale s
    else minmax_scale s
  else minmax_scale s.

(** Which [return] of [percentile_to_1_20] is reached. *)
Inductive Branch : Type := PercentileRank | MinMaxFallback.

Definition branch (minutes : list cell) (series : list cell)
                  (min_minutes : Q) : Branch :=
  let s := map (fillna 0) series in
  let mask := map (qualifies min_minutes) minutes in
  if (0 <? mask_sum mask)%nat then
    let baseline := boolean_index s mask in
    if (0 <? length baseline)%nat then PercentileRank
    else MinMaxFallback
  else MinMaxFallback.

Definition default_min_minutes : Q := 500.

End Scaler.

(* ================================================================== *)
(** ** The scaler as the specification words it *)

Module Spec.

(** Number of values strictly below [x], and number tied with [x]. *)
Definition count_less (s : list Q) (x : Q) : nat :=
  length (filter (fun y => negb (Qle_bool x y)) s).

Definition count_equal (s : list Q) (x : Q) : nat :=
  length (filter (fun y => Qeq_bool y x) s).

(** Average-rank convention: tied values share the mean of the ranks
    [count_less + 1 .. count_less + count_equal]. *)
Definition average_rank (s : list Q) (x : Q) : Q :=
  inject_Z (Z.of_nat (count_less s x))
  + (inject_Z (Z.of_nat (count_equal s x)) + 1) / 2.

(** Percentile rank over the entire population. *)
Definition percentile_rank (s : list Q) (x : Q) : Q :=
  average_rank s x / inject_Z (Z.of_nat (length s)).

(** [1 + 19 * percentile_rank(x)], rounded to 2 decimals. *)
Definition percentile_scaled (s : list Q) (x : Q) : Q :=
  round2 (1 + 19 * percentile_rank s x).

(** [1 + 19 * (x - min) / (max - min + eps)], rounded to 2 decimals. *)
Definition minmax_scaled (s : list Q) (x : Q) : Q :=
  round2 (1 + 19 * (x - Scaler.smin s)
              / (Scaler.smax s - Scaler.smin s + (1 # 100000000))).

(** Number of players the qualifying mask selects. *)
Definition qualifying (min_minutes : Q) (minutes : list cell) : nat :=
  length (filter (Scaler.qualifies min_minutes) minutes).

(** Missing values are treated as 0; the fallback is taken exactly when
    no player qualifies. *)
Definition scale (minutes series : list cell) (min_minutes : Q) : list Q :=
  let s := map (fillna 0) series in
  match qualifying min_minutes minutes with
  | O => map (minmax_scaled s) s
  | S _ => map (percentile_scaled s) s
  end.

End Spec.

(* ================================================================== *)
(** ** NumPy's global random generator *)

Module Rand.

(** The equally likely outcomes of [np.random.randint(low, high)]:
    the integers of the half-open interval [low, high). *)
Definition randint_support (low high : Z) : list Z :=
  map (fun i => (low + Z.of_nat i)%Z) (seq 0 (Z.to_nat (high - low))).

(** A generator state [G] with the two draws the scripts use.
    [randint low high size] is [np.random.randint(low, high, size)],
    [normal loc scale] is [np.random.normal(loc, scale)] and [seed] is
    the state [np.random.seed] installs. *)
Class RandomState (G : Type) := {
  randint : Z -> Z -> nat -> G -> list Z * G;
  normal : Q -> Q -> G -> Q * G;
  seed : Z -> G;
  randint_length :
    forall low high size g,
      (low < high)%Z -> length (fst (randint low high size g)) = size;
  randint_in_support :
    forall low high size g,
      (low < high)%Z ->
      Forall (fun a => In a (randint_support low high))
             (fst (randint low high size g))
}.

(** A small linear congruential generator, used to run the model. *)
Definition lcg_next (g : Z) : Z := ((g * 1103515245 + 12345) mod 2147483648)%Z.

Fixpoint lcg_randint (low high : Z) (size : nat) (g : Z) : list Z * Z :=
  match size with
  | O => ([], g)
  | S k =>
      let g1 := lcg_next g in
      let (rest, g2) := lcg_randint low high k g1 in
      ((low + g1 mod (high - low))%Z :: rest, g2)
  end.

Definition lcg_normal (loc scale : Q) (g : Z) : Q * Z :=
  let g1 := lcg_next g in
  (loc + scale * ((g1 mod 9 - 4) # 2), g1).

End Rand.

(* ================================================================== *)
(** ** Stage 3: per-match player rows (3_process_match_events.py) *)

Module Stage3.

(** The raw per-match counters of a player row. *)
Inductive RawStat : Type :=
| passes | completed_passes | key_passes | assists
| shots | shots_on_target | goals | xG | xA
| dribbles | dribbles_successful
| tackles | tackles_won | interceptions | clearances | blocks
| aerial_duels | aerial_duels_won
| pressures | fouls_committed | fouls_won
| cards_yellow | cards_red.

(** One StatsBomb event: the columns the minute computation reads. *)
Record Event := {
  ev_player : option string;   (* NaN for events without a player *)
  ev_minute : Z;
  ev_type : string
}.

Record MatchRow := {
  player : string;
  minutes_played : Z;
  matches_played : Z;
  raw : RawStat -> Q
}.

Section Process.

(** The event counts of lines 93-131 (filters on type and outcome
    columns), taken as given. *)
Variable tally : list Event -> RawStat -> Q.

(** [events["player"].dropna().unique()]: order of first appearance. *)
Fixpoint unique (l : list string) : list string :=
  match l with
  | [] => []
  | x :: t => x :: filter (fun y => negb (String.eqb x y)) (unique t)
  end.

Definition dropna_players (events : list Event) : list string :=
  flat_map (fun e => match ev_player e with Some p => [p] | None => [] end)
           events.

Definition events_of (p : string) (events : list Event) : list Event :=
  filter (fun e => match ev_player e with
                   | Some q => String.eqb q p
                   | None => false
                   end) events.

(** [player_events["minute"].max() if len(player_events) > 0 else 0]. *)
Definition minute_max (player_events : list Event) : Z :=
  match player_events with
  | [] => 0%Z
  | e :: t => fold_left (fun m e' => Z.max m (ev_minute e')) t (ev_minute e)
  end.

(** The body of the player loop: a player whose last event is at
    minute 0 is skipped by [continue]. *)
Definition player_row (events : list Event) (p : string) : list MatchRow :=
  let player_events := events_of p events in
  let minutes := minute_max player_events in
  if (minutes =? 0)%Z then []
  else [ {| player := p;
            minutes_played := minutes;
            matches_played := 1;
            raw := tally player_events |} ].

Definition process_match (events : list Event) : list MatchRow :=
  flat_map (player_row events) (unique (dropna_players events)).

(** [pd.concat(all_players)] over the matches whose events and match
    record were found; the rows reloaded from an earlier checkpoint
    were produced by this same loop. *)
Definition process_matches (matches : list (list Event)) : list MatchRow :=
  flat_map process_match matches.

End Process.

End Stage3.

(* ================================================================== *)
(** ** The [player_stats] table *)

Module Table.

Inductive Column : Type :=
| minutes_played | matches_played
| passes_per90 | completed_passes_per90 | pass_accuracy
| progressive_passes_per90 | key_passes_per90 | assists_per90
| shots_per90 | shots_on_target_per90 | goals_per90 | xG_per90 | xA_per90
| dribbles_per90 | dribbles_successful_per90 | progressive_carries_per90
| touches_per90
| tackles_per90 | tackles_won_per90 | interceptions_per90
| clearances_per90 | blocks_per90
| aerial_duels_per90 | aerial_duels_won_per90
| saves_per90 | clean_sheets | goals_conceded_per90
| pressures_per90 | pressure_regains_per90
| fouls_committed_per90 | fouls_won_per90
| cards_yellow | cards_red.

(** A row of [SELECT ps.*, p.player_name FROM player_stats ps JOIN
    players p]. *)
Record StatRow := {
  player_name : string;
  competition_id : option Z;
  season_id : option Z;
  col : Column -> cell
}.

End Table.

(* ================================================================== *)
(** ** Stage 4: aggregation and per-90 rates (4_aggregate_player_stats.py) *)

Module Stage4.

Import Stage3.

Record AggRow := {
  agg_player : string;
  agg_minutes_played : Z;
  agg_matches_played : Z;
  agg_raw : RawStat -> Q
}.

(** Ascending order of the group keys, as [groupby] sorts them
    (byte order of the names). *)
Fixpoint insert_key (k : string) (l : list string) : list string :=
  match l with
  | [] => [k]
  | y :: t => if String.leb k y then k :: l else y :: insert_key k t
  end.

Definition sorted_keys (rows : list MatchRow) : list string :=
  fold_right insert_key [] (unique (map player rows)).

Definition zsum (l : list Z) : Z := fold_right Z.add 0%Z l.
Definition qsum (l : list Q) : Q := fold_right Qplus 0 l.

Definition rows_of (p : string) (rows : list MatchRow) : list MatchRow :=
  filter (fun r => String.eqb (player r) p) rows.

(** [df_players.groupby("player").agg(... "sum" ...).reset_index()]. *)
Definition aggregate (rows : list MatchRow) : list AggRow :=
  map (fun p =>
         let g := rows_of p rows in
         {| agg_player := p;
            agg_minutes_played := zsum (map minutes_played g);
            agg_matches_played := zsum (map matches_played g);
            agg_raw := fun k => qsum (map (fun r => raw r k) g) |})
      (sorted_keys rows).

(** [minutes_90 = agg["minutes_played"] / 90]. *)
Definition minutes_90 (r : AggRow) : cell :=
  Some (inject_Z (agg_minutes_played r) / 90).

(** [agg[k] / minutes_90]. *)
Definition per90 (r : AggRow) (k : RawStat) : cell :=
  ndiv (Some (agg_raw r k)) (minutes_90 r).

(** [(agg["completed_passes"] / agg["passes"] * 100).fillna(0)]. *)
Definition pass_accuracy (r : AggRow) : cell :=
  Some (fillna 0 (nmul (ndiv (Some (agg_raw r completed_passes))
                             (Some (agg_raw r passes)))
                       (Some 100))).

(** The [INSERT INTO player_stats] of lines 153-176: the aggregated row
    is stored with [competition_id = 0] and [season_id = 0]; the columns
    the statement does not list stay NULL. *)
Definition to_stat_row (r : AggRow) : Table.StatRow :=
  {| Table.player_name := agg_player r;
     Table.competition_id := Some 0%Z;
     Table.season_id := Some 0%Z;
     Table.col := fun c =>
       match c with
       | Table.minutes_played => Some (inject_Z (agg_minutes_played r))
       | Table.matches_played => Some (inject_Z (agg_matches_played r))
       | Table.passes_per90 => per90 r passes
       | Table.completed_passes_per90 => per90 r completed_passes
       | Table.pass_accuracy => pass_accuracy r
       | Table.key_passes_per90 => per90 r key_passes
       | Table.assists_per90 => per90 r assists
       | Table.shots_per90 => per90 r shots
       | Table.shots_on_target_per90 => per90 r shots_on_target
       | Table.goals_per90 => per90 r goals
       | Table.xG_per90 => per90 r xG
       | Table.xA_per90 => per90 r xA
       | Table.dribbles_per90 => per90 r dribbles
       | Table.dribbles_successful_per90 => per90 r dribbles_successful
       | Table.tackles_per90 => per90 r tackles
       | Table.tackles_won_per90 => per90 r tackles_won
       | Table.interceptions_per90 => per90 r interceptions
       | Table.clearances_per90 => per90 r clearances
       | Table.blocks_per90 => per90 r blocks
       | Table.aerial_duels_per90 => per90 r aerial_duels
       | Table.aerial_duels_won_per90 => per90 r aerial_duels_won
       | Table.pressures_per90 => per90 r pressures
       | Table.fouls_committed_per90 => per90 r fouls_committed
       | Table.fouls_won_per90 => per90 r fouls_won
       | Table.cards_yellow => Some (agg_raw r cards_yellow)
       | Table.cards_red => Some (agg_raw r cards_red)
       | _ => None
       end |}.

Definition is_aggregated (r : Table.StatRow) : bool :=
  match Table.competition_id r, Table.season_id r with
  | Some c, Some s => ((c =? 0) && (s =? 0))%Z
  | _, _ => false
  end.

(** The stage on the table: the earlier aggregated rows are deleted
    ([DELETE ... WHERE competition_id = 0 AND season_id = 0]) and one
    row per aggregated player is inserted. *)
Definition store (rows : list MatchRow) (player_stats : list Table.StatRow)
  : list Table.StatRow :=
  filter (fun r => negb (is_aggregated r)) player_stats
  ++ map to_stat_row (aggregate rows).

End Stage4.

(* ================================================================== *)
(** ** Stage 5: attributes and ratings (5_calculate_player_attributes.py) *)

Module Stage5.

Import Table.

Declare Scope cell_scope.
Delimit Scope cell_scope with cell.
Notation "a + b" := (nadd a b) : cell_scope.
Notation "a - b" := (nsub a b) : cell_scope.
Notation "a * b" := (nmul a b) : cell_scope.
Notation "a / b" := (ndiv a b) : cell_scope.
Notation "' q" := (Some (q : Q)) (at level 1, format "' q") : cell_scope.

(** A row of [df_stats] once the [age] column exists (line 74); every
    [x.get('age', 25)] and [x["age"]] below reads this column. *)
Record Row := {
  stats : StatRow;
  age : Z
}.

Definition get (r : Row) (c : Column) : cell := col (stats r) c.

(** The dict [league_coeffs] of [get_league_coefficient]. *)
Definition league_coeffs : list (Z * Q) :=
  [ (2%Z, 1.0); (49%Z, 0.95); (11%Z, 0.9); (12%Z, 0.85); (9%Z, 0.8);
    (37%Z, 1.1); (38%Z, 0.9); (55%Z, 0.8);
    (43%Z, 1.05); (50%Z, 1.0); (72%Z, 0.85); (44%Z, 0.8); (45%Z, 0.75) ].

(** [d.get(key, default)]. *)
Definition dict_get (d : list (Z * Q)) (key : Z) (default : Q) : Q :=
  match find (fun kv => (fst kv =? key)%Z) d with
  | Some kv => snd kv
  | None => default
  end.

(** [get_league_coefficient(comp_id)]; a NULL competition (NaN) is no
    key of the dict. *)
Definition get_league_coefficient (comp_id : option Z) : Q :=
  match comp_id with
  | Some k => dict_get league_coeffs k 0.8
  | None => 0.8
  end.

Definition calculate_age_factor (age : Z) : Q :=
  if (age <=? 21)%Z then 1.1
  else if (age <=? 25)%Z then 1.05
  else if (age <=? 30)%Z then 1.0
  else 0.95.

(** The two recurring column factors
    [df_stats.apply(lambda x: get_league_coefficient(x.get('competition_id', 0)), axis=1)]
    and [df_stats.apply(lambda x: calculate_age_factor(x.get('age', 25)), axis=1)]. *)
Definition league (r : Row) : cell :=
  Some (get_league_coefficient (competition_id (stats r))).
Definition agef (r : Row) : cell := Some (calculate_age_factor (age r)).

(** [lambda x: hi if <test on age> else 1.0]. *)
Definition when (test : bool) (hi lo : Q) : cell := Some (if test then hi else lo).

Definition between (lo a hi : Z) : bool := ((lo <=? a) && (a <=? hi))%Z.

(** [df_stats["touches_per90"] = (passes_per90 + dribbles_per90).fillna(0)]
    (line 36) replaces the stored column. *)
Definition add_touches (r : StatRow) : StatRow :=
  {| player_name := player_name r;
     competition_id := competition_id r;
     season_id := season_id r;
     col := fun c =>
       match c with
       | touches_per90 =>
           Some (fillna 0 (col r passes_per90 + col r dribbles_per90)%cell)
       | _ => col r c
       end |}.

Inductive Attr : Type :=
| passing | shooting | dribbling | first_touch | crossing | finishing
| long_shots
| pace | acceleration | stamina | strength | jumping_reach
| positioning | vision | composure | concentration | decisions | leadership
| tackling | marking | heading
| goalkeeping | reflexes | handling | kicking.

(** The value handed to [percentile_to_1_20] for each attribute
    (lines 84-266), for one row. *)
Definition base (a : Attr) (r : Row) : cell :=
  let c := get r in
  (match a with
   | passing =>
       (c passes_per90 * '0.3 + c pass_accuracy * '0.25
        + c key_passes_per90 * '0.25 + c assists_per90 * '0.2)
       * league r * agef r
   | shooting =>
       (c goals_per90 * '0.3 + c xG_per90 * '0.25
        + c shots_on_target_per90 * '0.25
        + (c goals_per90 / (c shots_per90 + '0.1)) * '0.2)
       * league r
   | dribbling =>
       (c dribbles_per90 * '0.4 + c dribbles_successful_per90 * '0.4
        + (c dribbles_successful_per90 / (c dribbles_per90 + '0.1)) * '0.2)
       * league r
   | first_touch =>
       (c dribbles_successful_per90 * '0.4 + c pass_accuracy * '0.3
        + c touches_per90 * '0.3)
       * agef r
   | crossing =>
       (c key_passes_per90 * '0.5 + c assists_per90 * '0.3
        + c pass_accuracy * '0.2)
       * league r
   | finishing =>
       (c goals_per90 * '0.4 + c shots_on_target_per90 * '0.3
        + (c goals_per90 / (c xG_per90 + '0.1)) * '0.3)
   | long_shots =>
       (c shots_per90 * '0.4 + c xG_per90 * '0.3
        + (c shots_on_target_per90 / (c shots_per90 + '0.1)) * '0.3)
       * league r
   | pace =>
       (c dribbles_per90 * '0.4 + c pressures_per90 * '0.3
        + c dribbles_successful_per90 * '0.3)
       * agef r
   | acceleration =>
       (c dribbles_successful_per90 * '0.5 + c dribbles_per90 * '0.3
        + c pressures_per90 * '0.2)
       * when (age r <=? 23)%Z 1.1 1.0
   | stamina =>
       (c minutes_played / '1000 * '0.4 + c pressures_per90 * '0.3
        + c tackles_per90 * '0.3)
       * when (30 <? age r)%Z 0.9 1.0
   | strength =>
       (c aerial_duels_per90 * '0.4 + c tackles_per90 * '0.3
        + c aerial_duels_won_per90 * '0.3)
       * when (between 25 (age r) 30) 1.05 1.0
   | jumping_reach =>
       (c aerial_duels_won_per90 * '0.6 + c aerial_duels_per90 * '0.4)
       * when (between 25 (age r) 30) 1.05 1.0
   | positioning =>
       (c interceptions_per90 * '0.3 + c key_passes_per90 * '0.25
        + c pressures_per90 * '0.25 + c tackles_per90 * '0.2)
       * when (28 <=? age r)%Z 1.1 1.0
   | vision =>
       (c key_passes_per90 * '0.4 + c assists_per90 * '0.3
        + c passes_per90 * '0.3)
       * league r
   | composure =>
       (c pass_accuracy * '0.4 + c dribbles_successful_per90 * '0.3
        + c goals_per90 * '0.3)
   | concentration =>
       (c interceptions_per90 * '0.4 + c tackles_won_per90 * '0.3
        + c clearances_per90 * '0.3)
       * when (26 <=? age r)%Z 1.1 1.0
   | decisions =>
       (c key_passes_per90 * '0.3 + c tackles_won_per90 * '0.25
        + c dribbles_successful_per90 * '0.25
        + (c assists_per90 + c goals_per90) * '0.2)
       * when (24 <=? age r)%Z 1.1 1.0
   | leadership =>
       (c minutes_played / '1000 * '0.4 + c assists_per90 * '0.3
        + c goals_per90 * '0.3)
       * when (28 <=? age r)%Z 1.2 1.0
   | tackling =>
       (c tackles_won_per90 * '0.5 + c tackles_per90 * '0.3
        + (c tackles_won_per90 / (c tackles_per90 + '0.1)) * '0.2)
       * when (between 25 (age r) 30) 1.05 1.0
   | marking =>
       (c interceptions_per90 * '0.4 + c pressures_per90 * '0.3
        + c tackles_per90 * '0.3)
       * when (26 <=? age r)%Z 1.1 1.0
   | heading =>
       (c aerial_duels_won_per90 * '0.6 + c aerial_duels_per90 * '0.4)
       * when (between 25 (age r) 30) 1.05 1.0
   | goalkeeping =>
       (c saves_per90 * '0.4 + c clean_sheets * '0.3
        + ('100 - c goals_conceded_per90 * '10) * '0.3)
       * when (26 <=? age r)%Z 1.1 1.0
   | reflexes =>
       c saves_per90 * when (age r <=? 28)%Z 1.05 1.0
   | handling =>
       (c clean_sheets * '0.6 + c pass_accuracy * '0.4)
       * when (26 <=? age r)%Z 1.1 1.0
   | kicking =>
       (c passes_per90 * '0.5 + c pass_accuracy * '0.5)
       * league r
   end)%cell.

(** [df_stats[a] = percentile_to_1_20(...)]: the scaled column. *)
Definition attribute (df : list Row) (a : Attr) : list Q :=
  Scaler.percentile_to_1_20
    (map (fun r => get r minutes_played) df)
    (map (base a) df)
    Scaler.default_min_minutes.

Inductive Position : Type := GK | DEF | MID | FWD.

Definition weights (p : Position) : list (Attr * Q) :=
  match p with
  | GK => [(goalkeeping, 0.4); (reflexes, 0.2); (handling, 0.2); (kicking, 0.2)]
  | DEF => [(tackling, 0.25); (marking, 0.25); (heading, 0.2);
            (positioning, 0.15); (pace, 0.15)]
  | MID => [(passing, 0.25); (vision, 0.2); (positioning, 0.15);
            (dribbling, 0.15); (tackling, 0.15); (stamina, 0.1)]
  | FWD => [(shooting, 0.3); (pace, 0.2); (dribbling, 0.2);
            (finishing, 0.15); (positioning, 0.15)]
  end.

Definition position_age_factor (p : Position) (age : Z) : Q :=
  match p with
  | GK => if between 28 age 32 then 1.1 else 1.0
  | DEF => if between 26 age 30 then 1.05 else 1.0
  | MID => if between 24 age 28 then 1.05 else 1.0
  | FWD => if between 22 age 26 then 1.05 else 1.0
  end.

(** [compute_position_CA(row, position_type)]; [attrs] are the scaled
    attributes of the row. *)
Definition compute_position_CA (r : Row) (attrs : Attr -> Q) (p : Position) : Q :=
  let base_ca := fold_left (fun acc kw => acc + attrs (fst kw) * snd kw)
                           (weights p) 0 in
  let league_coeff := get_league_coefficient (competition_id (stats r)) in
  let age_factor := position_age_factor p (age r) in
  round2 (base_ca * league_coeff * age_factor).

(** Overall CA (lines 302-307). *)
Definition overall_CA (ca_gk ca_def ca_mid ca_fwd : Q) : Q :=
  round2 (ca_gk * 0.1 + ca_def * 0.3 + ca_mid * 0.3 + ca_fwd * 0.3).

Definition uplift_band (age : Z) : Q * Q :=
  if (age <=? 20)%Z then (6, 2)
  else if (age <=? 24)%Z then (4, 1.5)
  else if (age <=? 28)%Z then (2, 1)
  else (0, 0.5).

(** The return expression of [compute_PA] for a drawn perturbation. *)
Definition PA_of (ca total_uplift : Q) : Q :=
  py_min 20 (py_max ca (ca + total_uplift)).

Record AttrRow := {
  out_player_name : string;
  out_attr : Attr -> Q;
  CA_GK : Q;
  CA_DEF : Q;
  CA_MID : Q;
  CA_FWD : Q;
  CA : Q;
  PA : Q
}.

(** [player_stats] as read, and [player_attributes] as saved. *)
Record Database := {
  player_stats : list StatRow;
  player_attributes : option (list AttrRow)
}.

Inductive Message : Type :=
| LoadingStats                 (* "Loading player stats from database..." *)
| NoStatsFound                 (* "No player stats found in database" *)
| Loaded (n : nat)             (* "Loaded {n} player records" *)
| Calculating                  (* the progress lines of lines 79-270 *)
| Saving                       (* "Saving attributes to database..." *)
| Saved (n : nat).             (* the two closing lines *)

Record Outcome := {
  printed : list Message;
  exit_status : Z;
  db_after : Database
}.

(** The status of the process after [exit(code)]: [exit()] raises
    [SystemExit(None)], which the interpreter turns into status 0. *)
Definition exit_code (code : option Z) : Z :=
  match code with
  | None => 0%Z
  | Some c => c
  end.

Section Run.

Context {G : Type} `{RS : Rand.RandomState G}.

(** [compute_PA(ca, age)]. *)
Definition compute_PA (ca : Q) (age : Z) (g : G) : Q * G :=
  let (base_uplift, variance) := uplift_band age in
  let (z, g') := Rand.normal 0 variance g in
  let total_uplift := base_uplift + z in
  (PA_of ca total_uplift, g').

(** [df_stats["age"] = np.random.randint(18, 35, len(df_stats))]. *)
Definition draw_ages (n : nat) (g : G) : list Z * G :=
  Rand.randint 18 35 n g.

Definition assign_age (df : list StatRow) (ages : list Z) : list Row :=
  map (fun ra => {| stats := fst ra; age := snd ra |}) (combine df ages).

(** The columns up to the overall CA, for row number [i]; the PA
    column is filled in by [apply_PA]. *)
Definition rated (df : list Row) (i : nat) (r : Row) : AttrRow :=
  let attrs := fun a => nth i (attribute df a) 0 in
  let gk := compute_position_CA r attrs GK in
  let de := compute_position_CA r attrs DEF in
  let mi := compute_position_CA r attrs MID in
  let fw := compute_position_CA r attrs FWD in
  {| out_player_name := player_name (stats r);
     out_attr := attrs;
     CA_GK := gk; CA_DEF := de; CA_MID := mi; CA_FWD := fw;
     CA := overall_CA gk de mi fw;
     PA := 0 |}.

Definition with_PA (r : AttrRow) (pa : Q) : AttrRow :=
  {| out_player_name := out_player_name r;
     out_attr := out_attr r;
     CA_GK := CA_GK r; CA_DEF := CA_DEF r;
     CA_MID := CA_MID r; CA_FWD := CA_FWD r;
     CA := CA r;
     PA := pa |}.

(** [df_stats.apply(lambda x: compute_PA(x["CA"], x["age"]), axis=1)]:
    one normal draw per row, in row order. *)
Fixpoint apply_PA (rows : list (AttrRow * Z)) (g : G) : list AttrRow * G :=
  match rows with
  | [] => ([], g)
  | (r, a) :: t =>
      let (pa, g1) := compute_PA (CA r) a g in
      let (rest, g2) := apply_PA t g1 in
      (with_PA r pa :: rest, g2)
  end.

(** The perturbations the rows of ages [ages] draw, in order, and
    everything a run over [n] rows reads from the generator. *)
Fixpoint draw_normals (ages : list Z) (g : G) : list Q * G :=
  match ages with
  | [] => ([], g)
  | a :: t =>
      let (z, g1) := Rand.normal 0 (snd (uplift_band a)) g in
      let (zs, g2) := draw_normals t g1 in
      (z :: zs, g2)
  end.

Definition random_tape (n : nat) (g : G) : list Z * list Q :=
  let (ages, g1) := draw_ages n g in
  (ages, fst (draw_normals ages g1)).

Fixpoint enumerate {A} (i : nat) (l : list A) : list (nat * A) :=
  match l with
  | [] => []
  | x :: t => (i, x) :: enumerate (S i) t
  end.

(** [df_stats] as the attribute formulas see it: the [touches_per90]
    column of line 36 and the [age] column of line 74 are in place. *)
Definition frame (df_stats : list StatRow) (g : G) : list Row :=
  assign_age (map add_touches df_stats)
             (fst (draw_ages (length df_stats) g)).

(** The rated rows before the PA column, each with its age. *)
Definition rated_rows (df : list Row) : list (AttrRow * Z) :=
  map (fun ir => (rated df (fst ir) (snd ir), age (snd ir)))
      (enumerate 0 df).

(** The computation on a non-empty population (lines 36-327). *)
Definition calculate (df_stats : list StatRow) (g : G) : list AttrRow * G :=
  let df0 := map add_touches df_stats in
  let (ages, g1) := draw_ages (length df0) g in
  let df := assign_age df0 ages in
  apply_PA (rated_rows df) g1.

(** The same table from the numbers drawn: the ages and the
    perturbations [zs]. *)
Definition with_draws (rows : list (AttrRow * Z)) (zs : list Q)
  : list AttrRow :=
  map (fun rz => with_PA (fst (fst rz))
                   (PA_of (CA (fst (fst rz)))
                          (fst (uplift_band (snd (fst rz))) + snd rz)))
      (combine rows zs).

Definition table_of (df_stats : list StatRow) (tape : list Z * list Q)
  : list AttrRow :=
  let df := assign_age (map add_touches df_stats) (fst tape) in
  with_draws (rated_rows df) (snd tape).

(** [out] is the rated row of [st] at some position of some frame,
    with a PA computed from its own CA. *)
Definition is_rated (st : StatRow) (out : AttrRow) : Prop :=
  exists df i a u,
    let r := rated df i {| stats := add_touches st; age := a |} in
    out = with_PA r (PA_of (CA r) u).

(** The script. *)
Definition main (db : Database) (g : G) : Outcome * G :=
  let df_stats := player_stats db in
  if (length df_stats =? 0)%nat then
    ({| printed := [LoadingStats; NoStatsFound];
        exit_status := exit_code None;
        db_after := db |}, g)
  else
    let (table, g') := calculate df_stats g in
    ({| printed := [LoadingStats; Loaded (length df_stats); Calculating;
                    Saving; Saved (length df_stats)];
        exit_status := 0%Z;
        db_after := {| player_stats := player_stats db;
                       player_attributes := Some table |} |}, g').

End Run.

End Stage5.

(* ================================================================== *)
(** ** The composite rating of map_stats_bomb_db_fixed.py (953-986) *)

Module Monolith.

(** Python's [max(xs)] and [min(xs)] over a non-empty list. *)
Definition list_max (x : Q) (xs : list Q) : Q := fold_left py_max xs x.
Definition list_min (x : Q) (xs : list Q) : Q := fold_left py_min xs x.

(** [calculate_versatility_factor(row)]. *)
Definition calculate_versatility_factor (ca_gk ca_def ca_mid ca_fwd : Q) : Q :=
  let max_ca := list_max ca_gk [ca_def; ca_mid; ca_fwd] in
  let min_ca := list_min ca_gk [ca_def; ca_mid; ca_fwd] in
  if Qlt_le_dec 0 max_ca then
    let versatility := 1.0 + (0.1 * (max_ca - min_ca) / max_ca) in
    py_min 1.2 versatility
  else 1.0.

(** [calculate_consistency_factor(row)]: [age = row.get('age', 25)];
    this script creates its [age] column at line 1029 only, after the
    ratings, so the default is what the call reads. *)
Definition calculate_consistency_factor (age : option Z) : Q :=
  let age := match age with Some a => a | None => 25%Z end in
  if (26 <=? age)%Z then 1.05 else 1.0.

(** Overall CA (lines 979-986). *)
Definition overall_CA (ca_gk ca_def ca_mid ca_fwd : Q) (age : option Z) : Q :=
  let versatility_factor :=
    calculate_versatility_factor ca_gk ca_def ca_mid ca_fwd in
  let consistency_factor := calculate_consistency_factor age in
  round2 ((ca_gk * 0.1 + ca_def * 0.3 + ca_mid * 0.3 + ca_fwd * 0.3)
          * versatility_factor * consistency_factor).

End Monolith.

(* ================================================================== *)
(** ** The staged pipeline, end to end *)

Module Pipeline.

Section Run.

Context {G : Type} `{RS : Rand.RandomState G}.
Variable tally : list Stage3.Event -> Stage3.RawStat -> Q.

(** Stages 3 and 4 fill [player_stats]; stage 5 rates it. *)
Definition run (matches : list (list Stage3.Event)) (db : Stage5.Database)
               (g : G) : Stage5.Outcome * G :=
  let rows := Stage3.process_matches tally matches in
  let db4 := {| Stage5.player_stats :=
                  Stage4.store rows (Stage5.player_stats db);
                Stage5.player_attributes := Stage5.player_attributes db |} in
  Stage5.main db4 g.

End Run.

End Pipeline.

(* ================================================================== *)
(** ** Concrete inputs *)

Module Examples.

Import Stage3.

(** A tally that counts the events of the type each counter is built
    from (outcome columns left aside). *)
Definition count_type (t : string) (events : list Event) : Q :=
  inject_Z (Z.of_nat (length (filter (fun e => String.eqb (ev_type e) t) events))).

Definition tally (events : list Event) (k : RawStat) : Q :=
  match k with
  | passes | completed_passes => count_type "Pass" events
  | shots | shots_on_target => count_type "Shot" events
  | dribbles | dribbles_successful => count_type "Dribble" events
  | tackles | tackles_won => count_type "Tackle" events
  | interceptions => count_type "Interception" events
  | clearances => count_type "Clearance" events
  | blocks => count_type "Block" events
  | pressures => count_type "Pressure" events
  | fouls_committed => count_type "Foul Committed" events
  | fouls_won => count_type "Foul Won" events
  | _ => 0
  end.

Definition event (p : string) (minute : Z) (t : string) : Event :=
  {| ev_player := Some p; ev_minute := minute; ev_type := t |}.

(** One match: Ada plays on to minute 88, Bo has a single event at
    minute 0, one event carries no player. *)
Definition match1 : list Event :=
  [ event "Ada" 0 "Pass"; event "Bo" 0 "Pass"; event "Ada" 12 "Shot";
    {| ev_player := None; ev_minute := 45; ev_type := "Half End" |};
    event "Ada" 88 "Pass" ].

(** The scenario of the specification: 900 minutes, 450 passes of which
    400 completed, 20 key passes, 3 assists. *)
Definition scenario : Stage4.AggRow :=
  {| Stage4.agg_player := "Ada";
     Stage4.agg_minutes_played := 900;
     Stage4.agg_matches_played := 10;
     Stage4.agg_raw := fun k =>
       match k with
       | passes => 450
       | completed_passes => 400
       | key_passes => 20
       | assists => 3
       | _ => 0
       end |}.

(** The stored row of the scenario, moved to competition [k]. *)
Definition in_competition (k : Z) (r : Table.StatRow) : Table.StatRow :=
  {| Table.player_name := Table.player_name r;
     Table.competition_id := Some k;
     Table.season_id := Table.season_id r;
     Table.col := Table.col r |}.

(** A stored row with 900 minutes in competition [k]; the goalkeeping
    columns are NULL, as stage 4 leaves them. *)
Definition stored (name : string) (k : Z) : Table.StatRow :=
  {| Table.player_name := name;
     Table.competition_id := Some k;
     Table.season_id := Some 0%Z;
     Table.col := fun c =>
       match c with
       | Table.minutes_played => Some 900
       | Table.matches_played => Some 10
       | Table.passes_per90 => Some 45
       | Table.pass_accuracy => Some (800 # 9)
       | Table.key_passes_per90 => Some 2
       | Table.assists_per90 => Some 0.3
       | Table.saves_per90 | Table.clean_sheets
       | Table.goals_conceded_per90 => None
       | _ => Some 1
       end |}.

Definition empty_db : Stage5.Database :=
  {| Stage5.player_stats := []; Stage5.player_attributes := None |}.

End Examples.

(* ================================================================== *)
(** ** Order of the group keys *)

Module Keys.

(** [a <= b] on player names, as [groupby] compares them. *)
Definition name_le (a b : string) : Prop := String.leb a b = true.

End Keys.

(* ================================================================== *)
(** ** The rating helpers of map_stats_bomb_db_fixed.py (652-681,
       910-945, 989-1015) *)

Module MonolithRatings.

(** [comp_id in [...]]; a missing competition is in no list. *)
Definition member (comp_id : option Z) (l : list Z) : bool :=
  match comp_id with
  | Some c => existsb (Z.eqb c) l
  | None => false
  end.

(** [get_opponent_strength_factor(comp_id, season_id)]; the season is
    not read. *)
Definition get_opponent_strength_factor (comp_id : option Z) : Q :=
  let base_coeff := Stage5.get_league_coefficient comp_id in
  if member comp_id [37; 43; 50]%Z then base_coeff * 1.2
  else if member comp_id [38; 55]%Z then base_coeff * 1.1
  else base_coeff.

(** [calculate_pressure_performance(row)] on
    [row.get('competition_id', 0)]. *)
Definition calculate_pressure_performance (comp_id : option Z) : Q :=
  1.0 + (if member comp_id [37; 43; 50]%Z then 0.1 else 0.0).

(** [compute_position_CA(row, position_type)]: the weights and age
    bands of the staged script, and the pressure factor on top. *)
Definition compute_position_CA (comp_id : option Z) (age : option Z)
                               (attrs : Stage5.Attr -> Q)
                               (p : Stage5.Position) : Q :=
  let base_ca := fold_left (fun acc kw => acc + attrs (fst kw) * snd kw)
                           (Stage5.weights p) 0 in
  let league_coeff := Stage5.get_league_coefficient comp_id in
  let age := match age with Some a => a | None => 25%Z end in
  let age_factor := Stage5.position_age_factor p age in
  let pressure_factor := calculate_pressure_performance comp_id in
  round2 (base_ca * league_coeff * age_factor * pressure_factor).

(** The part of [total_uplift] that is not drawn. *)
Definition fixed_uplift (age : Z) (league_coeff versatility_factor : Q) : Q :=
  let base_uplift := fst (Stage5.uplift_band age) in
  let league_bonus := (league_coeff - 0.8) * 2 in
  let versatility_bonus := (versatility_factor - 1.0) * 3 in
  base_uplift + league_bonus + versatility_bonus.

Section Run.

Context {G : Type} `{RS : Rand.RandomState G}.

(** [compute_PA(ca, age, league_coeff, versatility_factor)]. *)
Definition compute_PA (ca : Q) (age : Z)
                      (league_coeff versatility_factor : Q) (g : G)
  : Q * G :=
  let (base_uplift, variance) := Stage5.uplift_band age in
  let league_bonus := (league_coeff - 0.8) * 2 in
  let versatility_bonus := (versatility_factor - 1.0) * 3 in
  let (z, g') := Rand.normal 0 variance g in
  let total_uplift := base_uplift + league_bonus + versatility_bonus + z in
  (Stage5.PA_of ca total_uplift, g').

End Run.

End MonolithRatings.

(* ================================================================== *)
(** * Properties *)

(** ** Rounding *)

Lemma round_half_even_comp (x y : Q) :
  x == y -> round_half_even x = round_half_even y.
Proof.
  intros E. unfold round_half_even.
  rewrite (Qfloor_comp _ _ E).
  assert (C : Qcompare (x - inject_Z (Qfloor y)) (1 # 2)
              = Qcompare (y - inject_Z (Qfloor y)) (1 # 2)).
  { apply Qcompare_comp; [rewrite E|]; reflexivity. }
  rewrite C. reflexivity.
Qed.

Lemma round_half_even_floor (q : Q) :
  round_half_even q = Qfloor q \/ round_half_even q = (Qfloor q + 1)%Z.
Proof.
  unfold round_half_even.
  destruct (Qcompare _ _); [destruct (Z.even _)|..]; auto.
Qed.

Lemma round_half_even_mono (x y : Q) :
  x <= y -> (round_half_even x <= round_half_even y)%Z.
Proof.
  intros L.
  pose proof (Qfloor_resp_le _ _ L) as F.
  destruct (Z.eq_dec (Qfloor x) (Qfloor y)) as [E | N].
  - unfold round_half_even. rewrite E.
    destruct (Qcompare_spec (x - inject_Z (Qfloor y)) (1 # 2)) as [H1|H1|H1];
    destruct (Qcompare_spec (y - inject_Z (Qfloor y)) (1 # 2)) as [H2|H2|H2];
    try destruct (Z.even (Qfloor y)); try lia; exfalso; lra.
  - destruct (round_half_even_floor x) as [-> | ->];
    destruct (round_half_even_floor y) as [-> | ->]; lia.
Qed.

Lemma round_half_even_Z (z : Z) : round_half_even (inject_Z z) = z.
Proof.
  unfold round_half_even. rewrite Qfloor_Z.
  destruct (Qcompare_spec (inject_Z z - inject_Z z) (1 # 2)) as [H|H|H];
    try reflexivity; exfalso; lra.
Qed.

Lemma round2_comp (x y : Q) : x == y -> round2 x = round2 y.
Proof.
  intros E. unfold round2. f_equal. apply round_half_even_comp.
  rewrite E. reflexivity.
Qed.

Lemma Qmake_100_le (a b : Z) : (a <= b)%Z -> a # 100 <= b # 100.
Proof. intros H. unfold Qle. simpl. lia. Qed.

Lemma round2_mono (x y : Q) : x <= y -> round2 x <= round2 y.
Proof.
  intros L. unfold round2. apply Qmake_100_le, round_half_even_mono. lra.
Qed.

Lemma round2_cents (z : Z) : round2 (z # 100) = z # 100.
Proof.
  unfold round2. f_equal.
  rewrite <- (round_half_even_Z z) at 2. apply round_half_even_comp.
  unfold Qeq. simpl. lia.
Qed.

Lemma round2_le (x : Q) (z : Z) : x <= z # 100 -> round2 x <= z # 100.
Proof. intros L. rewrite <- (round2_cents z). apply round2_mono, L. Qed.

Lemma round2_ge (x : Q) (z : Z) : z # 100 <= x -> z # 100 <= round2 x.
Proof. intros L. rewrite <- (round2_cents z). apply round2_mono, L. Qed.

Lemma round2_le_20 (x : Q) : x <= 20 -> round2 x <= 20.
Proof.
  intros L. apply Qle_trans with (2000 # 100); [|unfold Qle; simpl; lia].
  apply round2_le. apply Qle_trans with 20; [exact L | unfold Qle; simpl; lia].
Qed.

(** ** Ranks: the sort-based average rank is the counting formula *)

Section Rank.
Import Scaler Spec.

Lemma insert_filter_length (f : Q -> bool) (a : Q) (l : list Q) :
  length (filter f (insert a l)) = length (filter f (a :: l)).
Proof.
  induction l as [|y t IH]; [reflexivity|].
  simpl insert. destruct (Qle_bool a y); [reflexivity|].
  simpl in *. destruct (f y), (f a); simpl in *; lia.
Qed.

Lemma sort_values_filter_length (f : Q -> bool) (s : list Q) :
  length (filter f (sort_values s)) = length (filter f s).
Proof.
  induction s as [|a t IH]; [reflexivity|].
  simpl sort_values. rewrite insert_filter_length.
  simpl. destruct (f a); simpl; fold (sort_values t); lia.
Qed.

Lemma sort_values_count_less s x :
  count_less (sort_values s) x = count_less s x.
Proof. apply sort_values_filter_length. Qed.

Lemma sort_values_count_equal s x :
  count_equal (sort_values s) x = count_equal s x.
Proof. apply sort_values_filter_length. Qed.

Lemma insert_Forall (P : Q -> Prop) a l :
  P a -> Forall P l -> Forall P (insert a l).
Proof.
  intros Pa H. induction H as [|y t Py Ht IH]; simpl.
  - constructor; auto.
  - destruct (Qle_bool a y); repeat constructor; auto.
Qed.

Lemma insert_sorted a l :
  StronglySorted Qle l -> StronglySorted Qle (insert a l).
Proof.
  intros H. induction H as [|y t Ht IH Hy]; simpl.
  - repeat constructor.
  - destruct (Qle_bool a y) eqn:E.
    + apply Qle_bool_iff in E. constructor.
      * constructor; assumption.
      * constructor; [assumption|].
        eapply Forall_impl; [|exact Hy]. intros z Hz. simpl in Hz. lra.
    + assert (y <= a).
      { destruct (Qlt_le_dec y a) as [L|L]; [lra|].
        apply Qle_bool_iff in L. congruence. }
      constructor; [assumption|]. apply insert_Forall; assumption.
Qed.

Lemma sort_values_sorted s : StronglySorted Qle (sort_values s).
Proof.
  induction s as [|a t IH]; simpl; [constructor | apply insert_sorted, IH].
Qed.

Lemma tie_positions_length x l k :
  length (tie_positions x l k) = count_equal l x.
Proof.
  revert k. induction l as [|y t IH]; intros k; [reflexivity|].
  unfold count_equal in *. simpl. destruct (Qeq_bool y x); simpl; rewrite IH; reflexivity.
Qed.

Lemma count_less_above x l :
  Forall (Qle x) l -> count_less l x = 0%nat.
Proof.
  unfold count_less. induction 1 as [|y t Hy Ht IH]; [reflexivity|].
  simpl. apply Qle_bool_iff in Hy. rewrite Hy. simpl. exact IH.
Qed.

Lemma count_equal_above x l :
  Forall (fun z => x < z) l -> count_equal l x = 0%nat.
Proof.
  unfold count_equal. induction 1 as [|y t Hy Ht IH]; [reflexivity|].
  simpl. destruct (Qeq_bool y x) eqn:E; [|exact IH].
  apply Qeq_bool_iff in E. lra.
Qed.

(** On an ascending list the tie group of [x] occupies the positions
    [k + count_less .. k + count_less + count_equal - 1]. *)
Lemma tie_positions_sum x l k :
  StronglySorted Qle l ->
  (2 * zsum (tie_positions x l k)
   = Z.of_nat (count_equal l x)
     * (2 * k + 2 * Z.of_nat (count_less l x)
        + Z.of_nat (count_equal l x) - 1))%Z.
Proof.
  intros H. revert k.
  induction H as [|y t Ht IH Hy]; intros k; [reflexivity|].
  specialize (IH (k + 1)%Z).
  unfold count_equal, count_less in *.
  cbn [tie_positions filter].
  destruct (Qeq_bool y x) eqn:E.
  - apply Qeq_bool_iff in E.
    assert (L : Qle_bool x y = true) by (apply Qle_bool_iff; lra).
    rewrite L. cbn [negb].
    assert (Z0 : count_less t x = 0%nat).
    { apply count_less_above. eapply Forall_impl; [|exact Hy].
      intros z Hz. simpl in Hz. lra. }
    unfold count_less in Z0. rewrite Z0 in *.
    cbn [length zsum fold_right]. fold (zsum (tie_positions x t (k + 1))).
    rewrite Nat2Z.inj_succ. change (Z.of_nat 0) with 0%Z in *. nia.
  - apply Qeq_bool_neq in E.
    destruct (Qle_bool x y) eqn:L; cbn [negb].
    + apply Qle_bool_iff in L.
      assert (Z0 : count_equal t x = 0%nat).
      { apply count_equal_above. eapply Forall_impl; [|exact Hy].
        intros z Hz. simpl in Hz.
        destruct (Qlt_le_dec x y); [lra|].
        exfalso. apply E. lra. }
      unfold count_equal in Z0. rewrite Z0 in *.
      change (Z.of_nat 0) with 0%Z in *. lia.
    + cbn [length]. rewrite Nat2Z.inj_succ. nia.
Qed.

Lemma count_equal_In s x : In x s -> (0 < count_equal s x)%nat.
Proof.
  unfold count_equal. induction s as [|y t IH]; intros H; [destruct H|].
  simpl. destruct H as [-> | H].
  - rewrite Qeq_bool_refl. simpl. lia.
  - destruct (Qeq_bool y x); simpl; auto with arith.
Qed.

(** pandas' sort-based average rank is the counting formula. *)
Lemma rank_average_spec s x :
  In x s -> rank_average s x == average_rank s x.
Proof.
  intros Hx. unfold rank_average, average_rank.
  pose proof (tie_positions_sum x (sort_values s) 1 (sort_values_sorted s)) as S.
  rewrite tie_positions_length, sort_values_count_equal in *.
  rewrite sort_values_count_less in S.
  pose proof (count_equal_In s x Hx) as P.
  set (e := Z.of_nat (count_equal s x)) in *.
  set (l := Z.of_nat (count_less s x)) in *.
  set (z := zsum _) in *.
  assert (E0 : (0 < e)%Z) by (subst e; lia).
  assert (Q2 : 2 * inject_Z z == inject_Z e * (2 * inject_Z l + inject_Z e + 1)).
  { change 2 with (inject_Z 2) at 1 2. change 1 with (inject_Z 1).
    rewrite <- !inject_Z_mult, <- !inject_Z_plus, <- inject_Z_mult.
    apply inject_Z_injective. rewrite S. ring. }
  assert (Ne : ~ inject_Z e == 0).
  { intros C. unfold Qeq in C. simpl in C. lia. }
  field_simplify_eq; [|exact Ne]. lra.
Qed.

Lemma percentile_scale_spec s :
  percentile_scale s = map (percentile_scaled s) s.
Proof.
  unfold percentile_scale, rank_pct. rewrite map_map.
  apply map_ext_in. intros x Hx. unfold percentile_scaled, percentile_rank.
  apply round2_comp. rewrite (rank_average_spec s x Hx). ring.
Qed.

Lemma minmax_scale_spec s :
  minmax_scale s = map (minmax_scaled s) s.
Proof.
  unfold minmax_scale. apply map_ext. intros x. unfold minmax_scaled.
  apply round2_comp. unfold eps. unfold Qdiv. ring.
Qed.

End Rank.

(** ** The scaled values: order and range *)

Section ScalerFacts.
Import Scaler Spec.

(** *** Minimum and maximum of a series *)

Lemma fold_min_le t x :
  fold_left Qmin t x <= x /\ forall y, In y t -> fold_left Qmin t x <= y.
Proof.
  revert x. induction t as [|a t IH]; intros x; simpl.
  - split; [lra | intros y []].
  - destruct (IH (Qmin x a)) as [H1 H2].
    pose proof (Q.le_min_l x a). pose proof (Q.le_min_r x a).
    split; [lra|]. intros y [<- | Hy]; [lra | auto].
Qed.

Lemma fold_max_ge t x :
  x <= fold_left Qmax t x /\ forall y, In y t -> y <= fold_left Qmax t x.
Proof.
  revert x. induction t as [|a t IH]; intros x; simpl.
  - split; [lra | intros y []].
  - destruct (IH (Qmax x a)) as [H1 H2].
    pose proof (Q.le_max_l x a). pose proof (Q.le_max_r x a).
    split; [lra|]. intros y [<- | Hy]; [lra | auto].
Qed.

Lemma smin_le s x : In x s -> smin s <= x.
Proof.
  destruct s as [|a t]; intros H; [destruct H|]. simpl.
  destruct (fold_min_le t a) as [H1 H2].
  destruct H as [<- | H]; auto.
Qed.

Lemma smax_ge s x : In x s -> x <= smax s.
Proof.
  destruct s as [|a t]; intros H; [destruct H|]. simpl.
  destruct (fold_max_ge t a) as [H1 H2].
  destruct H as [<- | H]; auto.
Qed.

Lemma minmax_denominator_pos s x :
  In x s -> 0 < smax s - smin s + eps.
Proof.
  intros H. pose proof (smin_le s x H). pose proof (smax_ge s x H).
  unfold eps. lra.
Qed.

(** *** Counting *)

Lemma filter_split_length {A} (p q r : A -> bool) (l : list A) :
  (forall y, p y = true -> q y = false) ->
  (forall y, p y = true -> r y = true) ->
  (forall y, q y = true -> r y = true) ->
  (length (filter p l) + length (filter q l) <= length (filter r l))%nat.
Proof.
  intros D P R. induction l as [|y t IH]; simpl; [lia|].
  specialize (D y). specialize (P y). specialize (R y).
  destruct (p y), (q y), (r y); simpl; try lia;
    try (discriminate D; reflexivity);
    try (discriminate P; reflexivity);
    try (discriminate R; reflexivity).
Qed.

Lemma filter_length_le {A} (p : A -> bool) (l : list A) :
  (length (filter p l) <= length l)%nat.
Proof.
  induction l as [|y t IH]; simpl; [lia|]. destruct (p y); simpl; lia.
Qed.

Lemma count_less_equal_le s x :
  (count_less s x + count_equal s x <= length s)%nat.
Proof.
  unfold count_less, count_equal.
  pose proof (filter_split_length
                (fun y => negb (Qle_bool x y)) (fun y => Qeq_bool y x)
                (fun _ => true) s) as H.
  etransitivity; [apply H|apply filter_length_le]; auto.
  intros y Hy. apply negb_true_iff in Hy.
  destruct (Qeq_bool y x) eqn:E; [|reflexivity].
  apply Qeq_bool_iff in E.
  assert (Qle_bool x y = true) by (apply Qle_bool_iff; lra). congruence.
Qed.

Lemma count_less_step s a b :
  b < a -> (count_less s b + count_equal s b <= count_less s a)%nat.
Proof.
  intros L. unfold count_less, count_equal.
  apply filter_split_length.
  - intros y Hy. apply negb_true_iff in Hy.
    destruct (Qeq_bool y b) eqn:E; [|reflexivity].
    apply Qeq_bool_iff in E.
    assert (Qle_bool b y = true) by (apply Qle_bool_iff; lra). congruence.
  - intros y Hy. apply negb_true_iff in Hy. apply negb_true_iff.
    destruct (Qle_bool a y) eqn:E; [|reflexivity].
    apply Qle_bool_iff in E.
    assert (Qle_bool b y = true) by (apply Qle_bool_iff; lra). congruence.
  - intros y Hy. apply Qeq_bool_iff in Hy. apply negb_true_iff.
    destruct (Qle_bool a y) eqn:E; [|reflexivity].
    apply Qle_bool_iff in E. lra.
Qed.

Lemma inject_nat_le (a b : nat) :
  (a <= b)%nat -> inject_Z (Z.of_nat a) <= inject_Z (Z.of_nat b).
Proof. intros H. rewrite <- Zle_Qle. lia. Qed.

Lemma inject_nat_plus (a b : nat) :
  inject_Z (Z.of_nat (a + b)) == inject_Z (Z.of_nat a) + inject_Z (Z.of_nat b).
Proof. rewrite Nat2Z.inj_add, inject_Z_plus. reflexivity. Qed.

Lemma inject_nat_pos (a : nat) :
  (0 < a)%nat -> 1 <= inject_Z (Z.of_nat a).
Proof. intros H. change 1 with (inject_Z 1). rewrite <- Zle_Qle. lia. Qed.

Lemma inject_nat_nonneg (a : nat) : 0 <= inject_Z (Z.of_nat a).
Proof. change 0 with (inject_Z 0). rewrite <- Zle_Qle. lia. Qed.

Ltac hide_counts :=
  repeat match goal with
         | H : context [inject_Z (Z.of_nat ?n)] |- _ =>
             let v := fresh "c" in
             set (v := inject_Z (Z.of_nat n)) in *; clearbody v
         end.

(** *** The two scaled values are monotone and at most 20 *)

Lemma average_rank_mono s a b :
  In b s -> b < a -> average_rank s b <= average_rank s a.
Proof.
  intros Hb L. unfold average_rank.
  pose proof (inject_nat_le _ _ (count_less_step s a b L)) as H.
  rewrite inject_nat_plus in H.
  pose proof (inject_nat_pos _ (count_equal_In s b Hb)).
  pose proof (inject_nat_nonneg (count_equal s a)).
  hide_counts. unfold Qdiv. change (/ 2) with (1 # 2). lra.
Qed.

Lemma average_rank_le_length s x :
  In x s -> average_rank s x <= inject_Z (Z.of_nat (length s)).
Proof.
  intros Hx. unfold average_rank.
  pose proof (inject_nat_le _ _ (count_less_equal_le s x)) as H.
  rewrite inject_nat_plus in H.
  pose proof (inject_nat_pos _ (count_equal_In s x Hx)).
  hide_counts. unfold Qdiv. change (/ 2) with (1 # 2). lra.
Qed.

Lemma length_pos_In {A} (s : list A) x : In x s -> (0 < length s)%nat.
Proof. destruct s; simpl; [intros [] | lia]. Qed.

Lemma percentile_rank_mono s a b :
  In b s -> b < a -> percentile_rank s b <= percentile_rank s a.
Proof.
  intros Hb L. unfold percentile_rank, Qdiv.
  apply Qmult_le_compat_r; [apply average_rank_mono; assumption|].
  apply Qinv_le_0_compat, inject_nat_nonneg.
Qed.

Lemma percentile_rank_le_1 s x : In x s -> percentile_rank s x <= 1.
Proof.
  intros Hx. unfold percentile_rank.
  pose proof (inject_nat_pos _ (length_pos_In s x Hx)).
  pose proof (average_rank_le_length s x Hx).
  hide_counts. apply Qle_shift_div_r; lra.
Qed.

Lemma percentile_scaled_mono s a b :
  In b s -> b < a -> percentile_scaled s b <= percentile_scaled s a.
Proof.
  intros Hb L. apply round2_mono.
  pose proof (percentile_rank_mono s a b Hb L). lra.
Qed.

Lemma percentile_scaled_le_20 s x : In x s -> percentile_scaled s x <= 20.
Proof.
  intros Hx. apply round2_le_20.
  pose proof (percentile_rank_le_1 s x Hx).
  set (p := percentile_rank s x) in *. lra.
Qed.

Lemma minmax_scaled_mono s a b :
  In b s -> b < a -> minmax_scaled s b <= minmax_scaled s a.
Proof.
  intros Hb L. apply round2_mono.
  pose proof (minmax_denominator_pos s b Hb) as D. unfold eps in D.
  apply Qinv_lt_0_compat in D. unfold Qdiv.
  set (i := / (smax s - smin s + (1 # 100000000))) in *.
  assert (19 * (b - smin s) * i <= 19 * (a - smin s) * i).
  { apply Qmult_le_compat_r; lra. }
  lra.
Qed.

Lemma minmax_scaled_le_20 s x : In x s -> minmax_scaled s x <= 20.
Proof.
  intros Hx. apply round2_le_20.
  pose proof (minmax_denominator_pos s x Hx) as D. unfold eps in D.
  pose proof (smax_ge s x Hx).
  assert (19 * (x - smin s) / (smax s - smin s + (1 # 100000000)) <= 19).
  { apply Qle_shift_div_r; [exact D|]. lra. }
  set (q := 19 * (x - smin s) / _) in *. lra.
Qed.

(** *** The branch structure of [percentile_to_1_20] *)

Lemma mask_sum_qualifying m minutes :
  mask_sum (map (qualifies m) minutes) = qualifying m minutes.
Proof.
  unfold mask_sum, qualifying.
  induction minutes as [|c t IH]; [reflexivity|].
  simpl. destruct (qualifies m c); simpl; rewrite IH; reflexivity.
Qed.

Lemma boolean_index_length s mask :
  length s = length mask -> length (boolean_index s mask) = mask_sum mask.
Proof.
  unfold mask_sum. revert mask.
  induction s as [|x s IH]; intros [|b mask] H; try discriminate; [reflexivity|].
  simpl. injection H as H. destruct b; simpl; rewrite (IH _ H); reflexivity.
Qed.

Lemma percentile_to_1_20_scale minutes series m :
  length series = length minutes ->
  percentile_to_1_20 minutes series m = scale minutes series m.
Proof.
  intros H. unfold percentile_to_1_20, scale.
  rewrite boolean_index_length by (rewrite !length_map; exact H).
  rewrite mask_sum_qualifying.
  destruct (qualifying m minutes) as [|k]; simpl.
  - apply minmax_scale_spec.
  - apply percentile_scale_spec.
Qed.

End ScalerFacts.

(** ** The scaler's contract *)

Section ScalerClaims.
Import Scaler Spec.

Lemma percentile_to_1_20_branch minutes series m :
  percentile_to_1_20 minutes series m
  = match branch minutes series m with
    | PercentileRank => percentile_scale (map (fillna 0) series)
    | MinMaxFallback => minmax_scale (map (fillna 0) series)
    end.
Proof.
  unfold percentile_to_1_20, branch.
  destruct (0 <? mask_sum _)%nat; [|reflexivity].
  destruct (0 <? length _)%nat; reflexivity.
Qed.

Lemma branch_fallback_iff minutes series m :
  length series = length minutes ->
  (branch minutes series m = MinMaxFallback <-> qualifying m minutes = 0%nat).
Proof.
  intros H. unfold branch.
  rewrite boolean_index_length by (rewrite !length_map; exact H).
  rewrite mask_sum_qualifying.
  destruct (qualifying m minutes); simpl; split; congruence.
Qed.

(** Both scaled columns are [map F s] for a value function [F]. *)
Lemma nth_map_In {A} (F : A -> Q) (s : list A) i a :
  nth_error s i = Some a -> nth i (map F s) 0 = F a /\ In a s.
Proof.
  intros H. split; [|eapply nth_error_In; exact H].
  revert i H. induction s as [|x t IH]; intros [|i] H; simpl in *;
    try discriminate; [congruence | auto].
Qed.

Lemma percentile_scale_monotone s i j a b :
  nth_error s i = Some a -> nth_error s j = Some b -> b < a ->
  nth j (percentile_scale s) 0 <= nth i (percentile_scale s) 0.
Proof.
  intros Hi Hj L. rewrite percentile_scale_spec.
  destruct (nth_map_In (percentile_scaled s) s i a Hi) as [-> _].
  destruct (nth_map_In (percentile_scaled s) s j b Hj) as [-> Hb].
  apply percentile_scaled_mono; assumption.
Qed.

Lemma minmax_scale_monotone s i j a b :
  nth_error s i = Some a -> nth_error s j = Some b -> b < a ->
  nth j (minmax_scale s) 0 <= nth i (minmax_scale s) 0.
Proof.
  intros Hi Hj L. rewrite minmax_scale_spec.
  destruct (nth_map_In (minmax_scaled s) s i a Hi) as [-> _].
  destruct (nth_map_In (minmax_scaled s) s j b Hj) as [-> Hb].
  apply minmax_scaled_mono; assumption.
Qed.

Lemma Forall_map_In {A} (P : Q -> Prop) (F : A -> Q) (s : list A) :
  (forall x, In x s -> P (F x)) -> Forall P (map F s).
Proof.
  intros H. apply Forall_forall. intros y Hy.
  apply in_map_iff in Hy. destruct Hy as [x [<- Hx]]. auto.
Qed.

Lemma percentile_to_1_20_le_20 minutes series m :
  Forall (fun v => v <= 20) (percentile_to_1_20 minutes series m).
Proof.
  rewrite percentile_to_1_20_branch. destruct (branch _ _ _).
  - rewrite percentile_scale_spec. apply Forall_map_In, percentile_scaled_le_20.
  - rewrite minmax_scale_spec. apply Forall_map_In, minmax_scaled_le_20.
Qed.

Lemma nth_le_20 l i : Forall (fun v => v <= 20) l -> nth i l 0 <= 20.
Proof.
  intros H. destruct (nth_in_or_default i l 0) as [Hin | ->]; [|lra].
  rewrite Forall_forall in H. auto.
Qed.

End ScalerClaims.

(** C3.  For every value series (one cell per row of the data frame,
    missing values read as 0), [percentile_to_1_20] takes the min-max
    fallback exactly when the mask [minutes_played >= 500] selects no
    player; on the percentile branch every output is
    [1 + 19 * percentile_rank(x)] rounded to 2 decimals, the rank being
    the average rank over the whole population divided by its size; on
    the fallback branch it is [1 + 19 * (x - min) / (max - min + 1e-8)],
    rounded alike.  The code's rank is the sort-based one
    ([Scaler.rank_average]); the statement uses the counting formula of
    [Spec]. *)
Theorem percentile_to_1_20_contract :
  forall (minutes series : list cell),
    length series = length minutes ->
    let s := map (fillna 0) series in
    let out := Scaler.percentile_to_1_20 minutes series 500 in
    (Scaler.branch minutes series 500 = Scaler.MinMaxFallback
     <-> Spec.qualifying 500 minutes = 0%nat)
    /\ (Scaler.branch minutes series 500 = Scaler.PercentileRank ->
        out = map (Spec.percentile_scaled s) s)
    /\ (Scaler.branch minutes series 500 = Scaler.MinMaxFallback ->
        out = map (Spec.minmax_scaled s) s).
Proof.
  intros minutes series H s out. split; [apply branch_fallback_iff, H|].
  unfold out. rewrite percentile_to_1_20_branch.
  split; intros ->.
  - apply percentile_scale_spec.
  - apply minmax_scale_spec.
Qed.

Lemma percentile_to_1_20_contract_witness :
  let minutes := [Some 600; Some 10; None] in
  let series := [Some 3; None; Some 2.5] in
  let s := map (fillna 0) series in
  length series = length minutes
  /\ Scaler.percentile_to_1_20 minutes series 500
     = map (Spec.percentile_scaled s) s
  /\ Scaler.percentile_to_1_20 minutes series 500 = [20.00; 7.33; 13.67].
Proof.
  split; [reflexivity|]. split; [|reflexivity].
  apply (percentile_to_1_20_contract [Some 600; Some 10; None]
                                     [Some 3; None; Some 2.5]);
    reflexivity.
Defined.

(** C7.  The scaler is monotone: for two entries of a series (missing
    values read as 0) with values [b < a], the output at the entry of
    [a] is at least the output at the entry of [b]; this holds for the
    percentile-rank column, for the min-max fallback column, and so for
    [percentile_to_1_20] whatever the mask. *)
Theorem percentile_to_1_20_monotone :
  forall (minutes series : list cell) (min_minutes : Q) (i j : nat) (a b : Q),
    nth_error (map (fillna 0) series) i = Some a ->
    nth_error (map (fillna 0) series) j = Some b ->
    b < a ->
    let s := map (fillna 0) series in
    nth j (Scaler.percentile_scale s) 0 <= nth i (Scaler.percentile_scale s) 0
    /\ nth j (Scaler.minmax_scale s) 0 <= nth i (Scaler.minmax_scale s) 0
    /\ nth j (Scaler.percentile_to_1_20 minutes series min_minutes) 0
       <= nth i (Scaler.percentile_to_1_20 minutes series min_minutes) 0.
Proof.
  intros minutes series m i j a b Hi Hj L s.
  pose proof (percentile_scale_monotone s i j a b Hi Hj L) as P.
  pose proof (minmax_scale_monotone s i j a b Hi Hj L) as M.
  repeat split; try assumption.
  rewrite percentile_to_1_20_branch. destruct (Scaler.branch _ _ _); assumption.
Qed.

Lemma percentile_to_1_20_monotone_witness :
  let minutes := [Some 600; Some 10; None] in
  let series := [Some 3; None; Some 2.5] in
  nth 2 (Scaler.percentile_to_1_20 minutes series 500) 0
  <= nth 0 (Scaler.percentile_to_1_20 minutes series 500) 0.
Proof.
  apply (percentile_to_1_20_monotone
           [Some 600; Some 10; None] [Some 3; None; Some 2.5] 500
           0%nat 2%nat 3 2.5);
    reflexivity.
Defined.

(** C10.  For a fixed series, two [minutes_played] columns of the data
    frame's length give the same output as soon as both masks select at
    least one player: the baseline [s[mask]] does not enter the result.
    More generally the output depends on the mask only through whether
    it is empty. *)
Theorem percentile_to_1_20_mask_irrelevant :
  forall (series minutes1 minutes2 : list cell) (min_minutes : Q),
    length minutes1 = length series ->
    length minutes2 = length series ->
    ((0 < Spec.qualifying min_minutes minutes1)%nat ->
     (0 < Spec.qualifying min_minutes minutes2)%nat ->
     Scaler.percentile_to_1_20 minutes1 series min_minutes
     = Scaler.percentile_to_1_20 minutes2 series min_minutes)
    /\ ((Spec.qualifying min_minutes minutes1 = 0%nat
         <-> Spec.qualifying min_minutes minutes2 = 0%nat) ->
        Scaler.percentile_to_1_20 minutes1 series min_minutes
        = Scaler.percentile_to_1_20 minutes2 series min_minutes).
Proof.
  intros series m1 m2 m H1 H2.
  rewrite !percentile_to_1_20_scale by congruence.
  unfold Spec.scale.
  destruct (Spec.qualifying m m1) as [|k1], (Spec.qualifying m m2) as [|k2];
    split; intros A; try intros B; try reflexivity; lia.
Qed.

Lemma percentile_to_1_20_mask_irrelevant_witness :
  Scaler.percentile_to_1_20 [Some 600; Some 10; None]
                            [Some 3; None; Some 2.5] 500
  = Scaler.percentile_to_1_20 [Some 499; Some 500; Some 9000]
                              [Some 3; None; Some 2.5] 500.
Proof.
  apply (percentile_to_1_20_mask_irrelevant
           [Some 3; None; Some 2.5]
           [Some 600; Some 10; None] [Some 499; Some 500; Some 9000] 500);
    try reflexivity; vm_compute; lia.
Defined.

(** ** A generator to run the model with *)

Module RandLCG.
Import Rand.

Lemma lcg_randint_length low high size g :
  length (fst (lcg_randint low high size g)) = size.
Proof.
  revert g. induction size as [|k IH]; intros g; [reflexivity|].
  simpl. specialize (IH (lcg_next g)).
  destruct (lcg_randint low high k (lcg_next g)). simpl in *. congruence.
Qed.

Lemma randint_support_In low high a :
  (low <= a < high)%Z <-> In a (randint_support low high).
Proof.
  unfold randint_support. rewrite in_map_iff. split.
  - intros H. exists (Z.to_nat (a - low)). split; [lia|].
    apply in_seq. lia.
  - intros [i [<- Hi]]. apply in_seq in Hi. lia.
Qed.

Lemma lcg_randint_in_support low high size g :
  (low < high)%Z ->
  Forall (fun a => In a (randint_support low high))
         (fst (lcg_randint low high size g)).
Proof.
  intros L. revert g. induction size as [|k IH]; intros g; [constructor|].
  simpl. specialize (IH (lcg_next g)).
  destruct (lcg_randint low high k (lcg_next g)). simpl in *.
  constructor; [|exact IH].
  apply randint_support_In.
  pose proof (Z.mod_pos_bound (lcg_next g) (high - low)). lia.
Qed.

#[export] Instance lcg_random_state : RandomState Z := {|
  randint := lcg_randint;
  normal := lcg_normal;
  seed := fun k => k;
  randint_length := fun low high size g _ => lcg_randint_length low high size g;
  randint_in_support := lcg_randint_in_support
|}.

End RandLCG.
Import RandLCG.

(** ** Stage 5: potential ability and the random tape *)

Section PotentialAbility.
Import Stage5.

Lemma PA_of_le_20 ca u : PA_of ca u <= 20.
Proof.
  unfold PA_of, py_min. destruct (Qlt_le_dec _ 20); lra.
Qed.

Lemma PA_of_ge_iff ca u : ca <= PA_of ca u <-> ca <= 20.
Proof.
  unfold PA_of, py_min, py_max.
  destruct (Qlt_le_dec ca (ca + u)); destruct (Qlt_le_dec _ 20); split; lra.
Qed.

Lemma PA_of_above ca u : 20 < ca -> PA_of ca u = 20 /\ PA_of ca u < ca.
Proof.
  intros H. unfold PA_of, py_min, py_max.
  destruct (Qlt_le_dec ca (ca + u)); destruct (Qlt_le_dec _ 20);
    split; try reflexivity; lra.
Qed.

End PotentialAbility.

Section Stage5Facts.
Import Stage5 Table.
Context {G : Type} `{RS : Rand.RandomState G}.

Lemma draw_normals_length ages (g : G) :
  length (fst (draw_normals ages g)) = length ages.
Proof.
  revert g. induction ages as [|a t IH]; intros g; [reflexivity|].
  simpl. destruct (Rand.normal _ _ g) as [z g1].
  specialize (IH g1). destruct (draw_normals t g1). simpl in *. congruence.
Qed.

Lemma apply_PA_with_draws rows (g : G) :
  fst (apply_PA rows g)
  = with_draws rows (fst (draw_normals (map snd rows) g)).
Proof.
  revert g. induction rows as [|[r a] t IH]; intros g; [reflexivity|].
  simpl. unfold compute_PA.
  destruct (uplift_band a) as [b v] eqn:E. simpl.
  destruct (Rand.normal 0 v g) as [z g1].
  specialize (IH g1).
  destruct (apply_PA t g1) as [rest g2].
  destruct (draw_normals (map snd t) g1) as [zs g3].
  simpl in *. unfold with_draws in *. simpl. rewrite E. simpl.
  f_equal. exact IH.
Qed.

Lemma assign_age_ages df ages :
  length ages = length df -> map age (assign_age df ages) = ages.
Proof.
  unfold assign_age. rewrite map_map. simpl.
  revert ages. induction df as [|r t IH]; intros [|a ages] H;
    try discriminate; [reflexivity|].
  simpl. f_equal. apply IH. simpl in H. lia.
Qed.

Lemma assign_age_stats df ages :
  length ages = length df -> map stats (assign_age df ages) = df.
Proof.
  unfold assign_age. rewrite map_map. simpl.
  revert ages. induction df as [|r t IH]; intros [|a ages] H;
    try discriminate; [reflexivity|].
  simpl. f_equal. apply IH. simpl in H. lia.
Qed.

Lemma enumerate_snd {A} (l : list A) k : map snd (enumerate k l) = l.
Proof.
  revert k. induction l as [|x t IH]; intros k; [reflexivity|].
  simpl. f_equal. apply IH.
Qed.

Lemma rated_rows_ages df : map snd (rated_rows df) = map age df.
Proof.
  unfold rated_rows. rewrite map_map. simpl.
  rewrite <- (enumerate_snd df 0) at 2. rewrite map_map. reflexivity.
Qed.

Lemma draw_ages_length n (g : G) : length (fst (draw_ages n g)) = n.
Proof. apply Rand.randint_length. lia. Qed.

(** The table depends on the generator through the numbers drawn only. *)
Lemma calculate_table_of df (g : G) :
  fst (calculate df g) = table_of df (random_tape (length df) g).
Proof.
  unfold calculate, table_of, random_tape. rewrite length_map.
  pose proof (draw_ages_length (length df) g) as L.
  destruct (draw_ages (length df) g) as [ages g1]. simpl in *.
  rewrite apply_PA_with_draws, rated_rows_ages, assign_age_ages.
  - reflexivity.
  - rewrite length_map. exact L.
Qed.

End Stage5Facts.

(** ** Stage 5: ranges of the ratings *)

Section Ratings.
Import Stage5 Table.

Lemma dict_get_range d k dflt lo hi :
  Forall (fun kv => lo <= snd kv <= hi) d ->
  lo <= dflt <= hi ->
  lo <= dict_get d k dflt <= hi.
Proof.
  intros Hd Hdef. unfold dict_get.
  induction Hd as [|kv t Hkv Ht IH]; simpl; [exact Hdef|].
  destruct (fst kv =? k)%Z; [exact Hkv | exact IH].
Qed.

Lemma get_league_coefficient_range c :
  0.75 <= get_league_coefficient c <= 1.1.
Proof.
  destruct c as [k|]; simpl; [|lra].
  apply dict_get_range; [|lra].
  unfold league_coeffs. repeat constructor; simpl; lra.
Qed.

Lemma position_age_factor_cases p a :
  position_age_factor p a = 1.0 \/ position_age_factor p a = 1.05
  \/ position_age_factor p a = 1.1.
Proof.
  destruct p; simpl; destruct (between _ _ _); auto.
Qed.

Lemma position_age_factor_mix a :
  0.1 * position_age_factor GK a + 0.3 * position_age_factor DEF a
  + 0.3 * position_age_factor MID a + 0.3 * position_age_factor FWD a
  <= 1.05.
Proof.
  unfold position_age_factor, between.
  destruct (Z.leb_spec 28 a), (Z.leb_spec a 32), (Z.leb_spec 26 a),
    (Z.leb_spec a 30), (Z.leb_spec 24 a), (Z.leb_spec a 28),
    (Z.leb_spec 22 a), (Z.leb_spec a 26); simpl; try lia; lra.
Qed.

Lemma base_ca_le_20 (attrs : Attr -> Q) p :
  (forall a, attrs a <= 20) ->
  fold_left (fun acc kw => acc + attrs (fst kw) * snd kw) (weights p) 0 <= 20.
Proof.
  intros H.
  destruct p; cbn [weights fold_left fst snd];
    repeat match goal with
           | |- context [attrs ?a] =>
               let v := fresh "v" in
               pose proof (H a); set (v := attrs a) in *; clearbody v
           end; lra.
Qed.

Lemma round2_le_q x q z : q == z # 100 -> x <= q -> round2 x <= q.
Proof.
  intros E L. rewrite E. apply round2_le. rewrite <- E. exact L.
Qed.

Lemma compute_position_CA_bound r attrs p :
  (forall a, attrs a <= 20) ->
  get_league_coefficient (competition_id (stats r)) <= 0.95 ->
  compute_position_CA r attrs p <= 19 * position_age_factor p (age r).
Proof.
  intros H C. unfold compute_position_CA.
  pose proof (base_ca_le_20 attrs p H) as B.
  pose proof (get_league_coefficient_range (competition_id (stats r))) as R.
  set (b := fold_left _ _ _) in *.
  set (c := get_league_coefficient _) in *.
  assert (P : b * c <= 19).
  { apply Qle_trans with (20 * c); [|lra].
    apply Qmult_le_compat_r; lra. }
  set (bc := b * c) in *.
  destruct (position_age_factor_cases p (age r)) as [-> | [-> | ->]].
  - apply (round2_le_q _ _ 1900); [reflexivity | lra].
  - apply (round2_le_q _ _ 1995); [reflexivity | lra].
  - apply (round2_le_q _ _ 2090); [reflexivity | lra].
Qed.

Lemma attribute_le_20 df a i : nth i (attribute df a) 0 <= 20.
Proof. apply nth_le_20, percentile_to_1_20_le_20. Qed.

Lemma rated_CA_le_20 df i r :
  get_league_coefficient (competition_id (stats r)) <= 0.95 ->
  CA (rated df i r) <= 20.
Proof.
  intros C. unfold rated. cbn [CA]. unfold overall_CA.
  set (attrs := fun a => nth i (attribute df a) 0).
  assert (H : forall a, attrs a <= 20) by (intros a; apply attribute_le_20).
  pose proof (compute_position_CA_bound r attrs GK H C).
  pose proof (compute_position_CA_bound r attrs DEF H C).
  pose proof (compute_position_CA_bound r attrs MID H C).
  pose proof (compute_position_CA_bound r attrs FWD H C).
  pose proof (position_age_factor_mix (age r)).
  apply round2_le_20.
  repeat match goal with
         | H : context [compute_position_CA r attrs ?p] |- _ =>
             let v := fresh "ca" in
             set (v := compute_position_CA r attrs p) in *; clearbody v
         end.
  repeat match goal with
         | H : context [position_age_factor ?p (age r)] |- _ =>
             let v := fresh "f" in
             set (v := position_age_factor p (age r)) in *; clearbody v
         end.
  lra.
Qed.

Lemma with_draws_rated df k l ages zs :
  length ages = length l -> length zs = length l ->
  Forall2 is_rated l
    (with_draws
       (map (fun ir => (rated df (fst ir) (snd ir), age (snd ir)))
            (enumerate k (assign_age (map add_touches l) ages)))
       zs).
Proof.
  revert k ages zs.
  induction l as [|st t IH]; intros k [|a ages] [|z zs] Ha Hz;
    try discriminate; [constructor|].
  simpl in Ha, Hz. cbn. constructor.
  - exists df, k, a, (fst (uplift_band a) + z). reflexivity.
  - apply IH; lia.
Qed.

Lemma table_of_rated df ages zs :
  length ages = length df -> length zs = length df ->
  Forall2 is_rated df (table_of df (ages, zs)).
Proof. intros. apply with_draws_rated; assumption. Qed.

Context {G : Type} `{RS : Rand.RandomState G}.

Lemma random_tape_lengths n (g : G) :
  length (fst (random_tape n g)) = n /\ length (snd (random_tape n g)) = n.
Proof.
  unfold random_tape. pose proof (draw_ages_length n g) as L.
  destruct (draw_ages n g) as [ages g1]. simpl in *.
  rewrite draw_normals_length. auto.
Qed.

Lemma calculate_rated df (g : G) :
  Forall2 is_rated df (fst (calculate df g)).
Proof.
  rewrite calculate_table_of.
  destruct (random_tape_lengths (length df) g) as [L1 L2].
  destruct (random_tape (length df) g) as [ages zs].
  apply table_of_rated; assumption.
Qed.

End Ratings.

(** ** Stage 5: the composite ratings *)

Section MonolithFacts.
Import Monolith.

Lemma py_max_Qmax a b : py_max a b == Qmax a b.
Proof.
  unfold py_max. destruct (Qlt_le_dec a b).
  - symmetry. apply Q.max_r. lra.
  - symmetry. apply Q.max_l. lra.
Qed.

Lemma py_min_Qmin a b : py_min a b == Qmin a b.
Proof.
  unfold py_min. destruct (Qlt_le_dec b a).
  - symmetry. apply Q.min_r. lra.
  - symmetry. apply Q.min_l. lra.
Qed.

Lemma py_max_bounds a b : a <= py_max a b /\ b <= py_max a b.
Proof. unfold py_max. destruct (Qlt_le_dec a b); split; lra. Qed.

Lemma py_min_bounds a b : py_min a b <= a /\ py_min a b <= b.
Proof. unfold py_min. destruct (Qlt_le_dec b a); split; lra. Qed.

Lemma list_min_le_max a b c d :
  list_min a [b; c; d] <= list_max a [b; c; d].
Proof.
  unfold list_min, list_max. simpl.
  pose proof (py_max_bounds a b). pose proof (py_max_bounds (py_max a b) c).
  pose proof (py_max_bounds (py_max (py_max a b) c) d).
  pose proof (py_min_bounds a b). pose proof (py_min_bounds (py_min a b) c).
  pose proof (py_min_bounds (py_min (py_min a b) c) d).
  lra.
Qed.

Lemma versatility_range gk de mi fw :
  1 <= calculate_versatility_factor gk de mi fw <= 1.2.
Proof.
  unfold calculate_versatility_factor.
  pose proof (list_min_le_max gk de mi fw) as H.
  set (M := list_max _ _) in *. set (m := list_min _ _) in *.
  destruct (Qlt_le_dec 0 M) as [P|P]; [|lra].
  assert (0 <= 0.1 * (M - m) / M).
  { apply Qle_shift_div_l; [exact P|]. lra. }
  set (q := 0.1 * (M - m) / M) in *.
  unfold py_min. destruct (Qlt_le_dec (1.0 + q) 1.2); lra.
Qed.

Lemma versatility_zero_max gk de mi fw :
  list_max gk [de; mi; fw] <= 0 ->
  calculate_versatility_factor gk de mi fw = 1.0.
Proof.
  intros H. unfold calculate_versatility_factor.
  destruct (Qlt_le_dec 0 _); [lra | reflexivity].
Qed.

Lemma versatility_formula gk de mi fw :
  let M := list_max gk [de; mi; fw] in
  let m := list_min gk [de; mi; fw] in
  0 < M ->
  calculate_versatility_factor gk de mi fw
  == Qmin 1.2 (1.0 + 0.1 * (M - m) / M).
Proof.
  intros M m P. unfold calculate_versatility_factor. fold M. fold m.
  destruct (Qlt_le_dec 0 M); [|lra].
  rewrite py_min_Qmin. reflexivity.
Qed.

End MonolithFacts.

Section Claims5.
Import Stage5 Table.

(** C1, amended.  For every row of [player_stats] and the row of the
    table computed from it: PA is at most 20; PA is at least CA exactly
    when CA is at most 20; when CA exceeds 20 the cap wins and PA is 20,
    below CA.  CA is at most 20, hence at most PA, for every row whose
    league coefficient is at most 0.95, and the rows stage 4 stores
    (competition 0, coefficient 0.8) are such rows. *)
Theorem PA_bounds :
  forall (G : Type) (RS : Rand.RandomState G)
         (df_stats : list StatRow) (g : G),
    Forall2 (fun st out =>
               PA out <= 20
               /\ (CA out <= PA out <-> CA out <= 20)
               /\ (20 < CA out -> PA out = 20 /\ PA out < CA out)
               /\ (get_league_coefficient (competition_id st) <= 0.95 ->
                   CA out <= PA out))
            df_stats (fst (calculate df_stats g))
    /\ forall r, get_league_coefficient
                   (competition_id (Stage4.to_stat_row r)) <= 0.95.
Proof.
  intros G RS df g. split.
  - eapply Forall2_impl; [|apply calculate_rated].
    intros st out (df' & i & a & u & ->). cbn [PA CA with_PA].
    set (r := rated df' i _).
    repeat split.
    + apply PA_of_le_20.
    + apply PA_of_ge_iff.
    + apply PA_of_ge_iff.
    + apply PA_of_above; assumption.
    + apply PA_of_above; assumption.
    + intros C. apply PA_of_ge_iff. apply rated_CA_le_20. exact C.
  - intros r. vm_compute. discriminate.
Qed.

(** C1 as stated fails: a lone player with 900 minutes in competition
    37 (coefficient 1.1) and age 28 is rated 20 on every attribute, so
    CA_GK = 24.2, CA_DEF = CA_MID = 23.1, CA_FWD = 22.0, CA = 22.88, and
    PA = min(20, ...) = 20 < CA. *)
Lemma PA_below_CA_counterexample :
  map age (frame [Examples.stored "Ada" 37] (Rand.seed 2)) = [28%Z]
  /\ map (fun out => (CA_GK out, CA_DEF out, CA_MID out, CA_FWD out))
         (fst (calculate [Examples.stored "Ada" 37] (Rand.seed 2)))
     = [(2420 # 100, 2310 # 100, 2310 # 100, 2200 # 100)]
  /\ map (fun out => (CA out, PA out))
         (fst (calculate [Examples.stored "Ada" 37] (Rand.seed 2)))
     = [(2288 # 100, 20)]
  /\ ~ (2288 # 100 <= 20)
  /\ ~ (forall (df_stats : list StatRow) (g : Z),
          Forall (fun out => CA out <= PA out /\ PA out <= 20)
                 (fst (calculate df_stats g))).
Proof.
  split; [vm_compute; reflexivity|].
  split; [vm_compute; reflexivity|].
  split; [vm_compute; reflexivity|].
  split; [unfold Qle; simpl; lia|].
  intros H. specialize (H [Examples.stored "Ada" 37] (Rand.seed 2)).
  vm_compute in H. inversion H as [|x l [C _] _]. apply C. reflexivity.
Qed.

(** C4, amended.  In 5_calculate_player_attributes.py the overall CA of
    every row is the blend 0.1 GK + 0.3 DEF + 0.3 MID + 0.3 FWD of its
    position CAs rounded to 2 decimals, with no further factor.  The
    versatility and consistency factors belong to
    map_stats_bomb_db_fixed.py: there the blend is multiplied by
    [v = min(1.2, 1 + 0.1 (max - min) / max)] for a positive maximum
    ([v = 1] otherwise, and [1 <= v <= 1.2] always) and by [c = 1.05] from
    age 26 on ([1] below, the age defaulting to 25), then rounded. *)
Theorem overall_CA_blend :
  forall (G : Type) (RS : Rand.RandomState G)
         (df_stats : list StatRow) (g : G),
    Forall (fun out =>
              CA out = round2 (CA_GK out * 0.1 + CA_DEF out * 0.3
                               + CA_MID out * 0.3 + CA_FWD out * 0.3))
           (fst (calculate df_stats g))
    /\ forall (gk de mi fw : Q) (age : option Z),
        let v := Monolith.calculate_versatility_factor gk de mi fw in
        let c := Monolith.calculate_consistency_factor age in
        let M := Monolith.list_max gk [de; mi; fw] in
        let m := Monolith.list_min gk [de; mi; fw] in
        Monolith.overall_CA gk de mi fw age
        = round2 ((gk * 0.1 + de * 0.3 + mi * 0.3 + fw * 0.3) * v * c)
        /\ (0 < M -> v == Qmin 1.2 (1.0 + 0.1 * (M - m) / M))
        /\ (M <= 0 -> v = 1.0)
        /\ 1 <= v <= 1.2
        /\ c = (if (26 <=? match age with Some a => a | None => 25 end)%Z
                then 1.05 else 1.0).
Proof.
  intros G RS df g. split.
  - pose proof (calculate_rated df g) as H.
    induction H as [|st out l l' (df' & i & a & u & ->) _ IH]; constructor.
    + reflexivity.
    + exact IH.
  - intros gk de mi fw age v c M m. repeat split.
    + apply versatility_formula.
    + apply versatility_zero_max.
    + apply versatility_range.
    + apply versatility_range.
Qed.

(** C4 as stated fails on the staged pipeline: a lone stored player
    (competition 0) of age 28 has position CAs 17.6, 16.8, 16.8, 16.0
    and overall CA 16.64; with the two factors it would be 17.63. *)
Lemma overall_CA_counterexample :
  map (fun out =>
         (CA out,
          Monolith.overall_CA (CA_GK out) (CA_DEF out) (CA_MID out)
                              (CA_FWD out) (Some 28%Z)))
      (fst (calculate [Examples.stored "Ada" 0] (Rand.seed 2)))
  = [(1664 # 100, 1763 # 100)]
  /\ map age (frame [Examples.stored "Ada" 0] (Rand.seed 2)) = [28%Z]
  /\ ~ (1664 # 100 == 1763 # 100).
Proof.
  split; [vm_compute; reflexivity|].
  split; [vm_compute; reflexivity|].
  unfold Qeq. simpl. lia.
Qed.

(** C8, amended.  On an empty population the stage prints its "No
    player stats found in database" line and stops through [exit()]: no
    attribute is computed, no random number is drawn, the database is
    left as it was (no table is dropped or written), and the exit status
    is 0, the status of a successful run. *)
Theorem empty_population_stops :
  forall (G : Type) (RS : Rand.RandomState G) (db : Database) (g : G),
    player_stats db = [] ->
    main db g
    = ({| printed := [LoadingStats; NoStatsFound];
          exit_status := 0%Z;
          db_after := db |}, g).
Proof.
  intros G RS db g H. unfold main. rewrite H. reflexivity.
Qed.

Lemma empty_population_stops_witness :
  main Examples.empty_db (Rand.seed 7)
  = ({| printed := [LoadingStats; NoStatsFound];
        exit_status := 0%Z;
        db_after := Examples.empty_db |}, Rand.seed 7).
Proof.
  apply (empty_population_stops Z lcg_random_state Examples.empty_db (Rand.seed 7)).
  reflexivity.
Defined.

(** C8 as stated fails: the exit status on the empty population is 0,
    so no error is signalled. *)
Lemma empty_population_counterexample :
  player_stats Examples.empty_db = []
  /\ exit_status (fst (main Examples.empty_db (Rand.seed 7))) = 0%Z
  /\ ~ (exit_status (fst (main Examples.empty_db (Rand.seed 7))) <> 0%Z).
Proof.
  split; [reflexivity|]. split; [reflexivity|].
  intros H. apply H. reflexivity.
Qed.

(** C9.  The ages the attribute formulas, the position age bands and
    [compute_PA] read are the [len(df_stats)] integers drawn by
    [np.random.randint(18, 35, ...)] right after loading: they lie in
    [18, 34], each is one of the 17 equally likely outcomes of the draw,
    and they are the same for any two tables of the same length, whatever
    the fields of the rows; the table is computed from the frame that
    carries them. *)
Theorem ages_are_random_draws :
  forall (G : Type) (RS : Rand.RandomState G)
         (df_stats : list StatRow) (g : G),
    let df := frame df_stats g in
    map age df = fst (Rand.randint 18 35 (length df_stats) g)
    /\ map stats df = map add_touches df_stats
    /\ Forall (fun r => (18 <= age r <= 34)%Z
                        /\ In (age r) (Rand.randint_support 18 35)) df
    /\ (forall df_stats' : list StatRow,
          length df_stats' = length df_stats ->
          map age (frame df_stats' g) = map age df)
    /\ fst (calculate df_stats g)
       = fst (apply_PA (rated_rows df) (snd (draw_ages (length df_stats) g)))
    /\ Rand.randint_support 18 35
       = [18; 19; 20; 21; 22; 23; 24; 25; 26; 27; 28; 29; 30; 31; 32; 33; 34]%Z.
Proof.
  intros G RS df_stats g df.
  assert (A : map age df = fst (Rand.randint 18 35 (length df_stats) g)).
  { apply assign_age_ages. rewrite length_map. apply draw_ages_length. }
  split; [exact A|].
  split.
  { apply assign_age_stats. rewrite length_map. apply draw_ages_length. }
  split.
  { assert (F : Forall (fun a => In a (Rand.randint_support 18 35)) (map age df)).
    { rewrite A. apply Rand.randint_in_support. lia. }
    rewrite Forall_map in F. eapply Forall_impl; [|exact F].
    intros r Hr. split; [|exact Hr].
    apply randint_support_In in Hr. lia. }
  split.
  { intros df' L. rewrite A. unfold frame. rewrite L.
    apply assign_age_ages. rewrite length_map, L. apply draw_ages_length. }
  split; [|reflexivity].
  unfold calculate, df, frame. rewrite length_map.
  destruct (draw_ages (length df_stats) g). reflexivity.
Qed.

End Claims5.

(** ** Determinism of the pipeline *)

(** C5.  Two runs of the pipeline (stages 3, 4 and 5) on the same
    matches and database, from generator states that deliver the same
    draws (the ages and the PA perturbations), end in the same outcome:
    the same printed lines, status and attribute table.  Two runs seeded
    identically start from the same state. *)
Theorem pipeline_deterministic :
  forall (G : Type) (RS : Rand.RandomState G)
         (tally : list Stage3.Event -> Stage3.RawStat -> Q)
         (matches : list (list Stage3.Event)) (db : Stage5.Database)
         (g1 g2 : G),
    let n := length (Stage4.store (Stage3.process_matches tally matches)
                                  (Stage5.player_stats db)) in
    Stage5.random_tape n g1 = Stage5.random_tape n g2 ->
    fst (Pipeline.run tally matches db g1)
    = fst (Pipeline.run tally matches db g2).
Proof.
  intros G RS tally matches db g1 g2 n T.
  unfold Pipeline.run, Stage5.main. cbn [Stage5.player_stats].
  fold n. destruct (n =? 0)%nat; [reflexivity|].
  pose proof (calculate_table_of
                (Stage4.store (Stage3.process_matches tally matches)
                              (Stage5.player_stats db)) g1) as H1.
  pose proof (calculate_table_of
                (Stage4.store (Stage3.process_matches tally matches)
                              (Stage5.player_stats db)) g2) as H2.
  fold n in H1, H2. rewrite T in H1. rewrite <- H2 in H1.
  destruct (Stage5.calculate _ g1) as [t1 g1'].
  destruct (Stage5.calculate _ g2) as [t2 g2'].
  simpl in *. subst t2. reflexivity.
Qed.

Lemma pipeline_deterministic_witness :
  fst (Pipeline.run Examples.tally [Examples.match1] Examples.empty_db
                    (Rand.seed 42))
  = fst (Pipeline.run Examples.tally [Examples.match1] Examples.empty_db
                      (Rand.seed (42 + 2147483648))).
Proof.
  apply (pipeline_deterministic Z lcg_random_state Examples.tally
           [Examples.match1] Examples.empty_db
           (Rand.seed 42) (Rand.seed (42 + 2147483648))).
  vm_compute. reflexivity.
Defined.

(** ** Stages 3 and 4: minutes and rates *)

Section Stage3Facts.
Import Stage3.
Variable tally : list Event -> RawStat -> Q.

Lemma fold_max_ge_init l m :
  (m <= fold_left (fun m e' => Z.max m (ev_minute e')) l m)%Z.
Proof.
  revert m. induction l as [|e t IH]; intros m; simpl; [lia|].
  specialize (IH (Z.max m (ev_minute e))). lia.
Qed.

Lemma minute_max_nonneg l :
  Forall (fun e => (0 <= ev_minute e)%Z) l -> (0 <= minute_max l)%Z.
Proof.
  intros H. destruct H as [|e t He Ht]; simpl; [lia|].
  pose proof (fold_max_ge_init t (ev_minute e)). lia.
Qed.

Lemma events_of_incl p events e :
  In e (events_of p events) -> In e events /\ ev_player e = Some p.
Proof.
  unfold events_of. rewrite filter_In. intros [H E]. split; [exact H|].
  destruct (ev_player e) as [q|]; [|discriminate].
  apply String.eqb_eq in E. congruence.
Qed.

Lemma player_row_In events p r :
  In r (player_row tally events p) <->
  minute_max (events_of p events) <> 0%Z
  /\ r = {| player := p;
            minutes_played := minute_max (events_of p events);
            matches_played := 1;
            raw := tally (events_of p events) |}.
Proof.
  unfold player_row.
  destruct (Z.eqb_spec (minute_max (events_of p events)) 0) as [E|E]; simpl.
  - split; [intros [] | intros [H _]; contradiction].
  - split; [intros [<- | []]; auto | intros [_ ->]; auto].
Qed.

Lemma unique_In l p : In p (unique l) <-> In p l.
Proof.
  induction l as [|x t IH]; simpl; [reflexivity|].
  rewrite filter_In, IH, negb_true_iff.
  destruct (String.eqb_spec x p) as [E|E]; intuition congruence.
Qed.

Lemma dropna_players_In events p :
  In p (dropna_players events) <->
  exists e, In e events /\ ev_player e = Some p.
Proof.
  unfold dropna_players. rewrite in_flat_map. split.
  - intros [e [He Hp]]. exists e. split; [exact He|].
    destruct (ev_player e); simpl in Hp; [|destruct Hp].
    destruct Hp as [-> | []]. reflexivity.
  - intros [e [He Hp]]. exists e. split; [exact He|]. rewrite Hp. simpl. auto.
Qed.

Lemma minute_max_nonzero_event p events :
  minute_max (events_of p events) <> 0%Z ->
  exists e, In e events /\ ev_player e = Some p.
Proof.
  intros H. destruct (events_of p events) as [|e t] eqn:E.
  - simpl in H. contradiction.
  - exists e. apply events_of_incl. rewrite E. simpl. auto.
Qed.

(** The rows of a match: one per player with a non-zero last minute. *)
Lemma process_match_In events r :
  In r (process_match tally events) <->
  minute_max (events_of (player r) events) <> 0%Z
  /\ r = {| player := player r;
            minutes_played := minute_max (events_of (player r) events);
            matches_played := 1;
            raw := tally (events_of (player r) events) |}.
Proof.
  unfold process_match. rewrite in_flat_map. split.
  - intros [p [_ H]]. apply player_row_In in H. destruct H as [N ->].
    simpl. auto.
  - intros [N E]. exists (player r). split.
    + apply unique_In, dropna_players_In, minute_max_nonzero_event, N.
    + apply player_row_In. auto.
Qed.

Lemma process_matches_In matches r :
  In r (process_matches tally matches) <->
  exists events, In events matches /\ In r (process_match tally events).
Proof. unfold process_matches. apply in_flat_map. Qed.

Lemma process_matches_minutes matches :
  (forall events e, In events matches -> In e events -> (0 <= ev_minute e)%Z) ->
  Forall (fun r => (0 < minutes_played r)%Z) (process_matches tally matches).
Proof.
  intros H. apply Forall_forall. intros r Hr.
  apply process_matches_In in Hr. destruct Hr as [events [Hm Hr]].
  apply process_match_In in Hr. destruct Hr as [N ->]. simpl in *.
  assert (0 <= minute_max (events_of (player r) events))%Z; [|lia].
  apply minute_max_nonneg, Forall_forall. intros e He.
  apply events_of_incl in He. apply (H events e); tauto.
Qed.

End Stage3Facts.

Section Stage4Facts.
Import Stage3 Stage4.

Lemma insert_key_In k l p : In p (insert_key k l) <-> p = k \/ In p l.
Proof.
  induction l as [|y t IH]; simpl; [intuition|].
  destruct (String.leb k y); simpl; [intuition|].
  rewrite IH. intuition.
Qed.

Lemma sorted_keys_In rows p :
  In p (sorted_keys rows) <-> In p (map player rows).
Proof.
  unfold sorted_keys. rewrite <- (unique_In (map player rows) p).
  induction (unique (map player rows)) as [|k t IH]; simpl; [reflexivity|].
  rewrite insert_key_In, IH. intuition.
Qed.

Lemma zsum_pos l :
  l <> [] -> Forall (fun m => (0 < m)%Z) l -> (0 < zsum l)%Z.
Proof.
  intros N H. induction H as [|m t Hm Ht IH]; [contradiction|].
  simpl. destruct t as [|m' t'].
  - simpl. lia.
  - assert (0 < zsum (m' :: t'))%Z by (apply IH; discriminate). lia.
Qed.

Lemma aggregate_In rows a :
  In a (aggregate rows) ->
  In (agg_player a) (map player rows)
  /\ agg_minutes_played a
     = zsum (map minutes_played (rows_of (agg_player a) rows)).
Proof.
  unfold aggregate. rewrite in_map_iff. intros [p [<- Hp]]. simpl.
  split; [apply sorted_keys_In, Hp | reflexivity].
Qed.

Lemma aggregate_players rows :
  map agg_player (aggregate rows) = sorted_keys rows.
Proof.
  unfold aggregate. rewrite map_map. simpl. apply map_id.
Qed.

Lemma aggregate_minutes_pos rows :
  Forall (fun r => (0 < minutes_played r)%Z) rows ->
  Forall (fun a => (0 < agg_minutes_played a)%Z) (aggregate rows).
Proof.
  intros H. apply Forall_forall. intros a Ha.
  apply aggregate_In in Ha. destruct Ha as [Hp ->].
  apply in_map_iff in Hp. destruct Hp as [r [Er Hr]].
  apply zsum_pos.
  - intros C. apply map_eq_nil in C.
    assert (In r (rows_of (agg_player a) rows)) as I.
    { unfold rows_of. apply filter_In. split; [exact Hr|].
      apply String.eqb_eq. exact Er. }
    rewrite C in I. destruct I.
  - apply Forall_map. unfold rows_of.
    apply Forall_forall. intros x Hx. apply filter_In in Hx.
    rewrite Forall_forall in H. apply H. tauto.
Qed.

Lemma per90_defined a k :
  (0 < agg_minutes_played a)%Z ->
  per90 a k = Some (agg_raw a k / (inject_Z (agg_minutes_played a) / 90)).
Proof.
  intros H. unfold per90, minutes_90, ndiv.
  destruct (Qeq_bool _ 0) eqn:E; [|reflexivity].
  apply Qeq_bool_iff in E. exfalso.
  assert (0 < inject_Z (agg_minutes_played a)).
  { change 0 with (inject_Z 0). rewrite <- Zlt_Qlt. exact H. }
  set (m := inject_Z _) in *.
  assert (0 < m / 90) by (apply Qlt_shift_div_l; lra). lra.
Qed.

End Stage4Facts.

(** C2.  With non-negative event minutes, every per-match row stage 3
    emits has positive minutes, so every player stage 4 aggregates has
    [minutes_played > 0] and each per-90 rate is the quotient
    [count / (minutes_played / 90)], never a made-up zero; a player is
    aggregated exactly when some match has an event of theirs after
    minute 0, so a player whose minutes would sum to 0 has no row at all
    and reaches no percentile population. *)
Theorem zero_minute_players_excluded :
  forall (tally : list Stage3.Event -> Stage3.RawStat -> Q)
         (matches : list (list Stage3.Event)),
    (forall events e, In events matches -> In e events ->
                      (0 <= Stage3.ev_minute e)%Z) ->
    let rows := Stage3.process_matches tally matches in
    Forall (fun r => (0 < Stage3.minutes_played r)%Z) rows
    /\ Forall (fun a =>
                 (0 < Stage4.agg_minutes_played a)%Z
                 /\ forall k,
                      Stage4.per90 a k
                      = Some (Stage4.agg_raw a k
                              / (inject_Z (Stage4.agg_minutes_played a) / 90)))
              (Stage4.aggregate rows)
    /\ forall p,
         In p (map Stage4.agg_player (Stage4.aggregate rows))
         <-> exists events,
               In events matches
               /\ Stage3.minute_max (Stage3.events_of p events) <> 0%Z.
Proof.
  intros tally matches H rows.
  pose proof (process_matches_minutes tally matches H) as R. fold rows in R.
  split; [exact R|]. split.
  - pose proof (aggregate_minutes_pos rows R) as A.
    eapply Forall_impl; [|exact A]. intros a Ha. split; [exact Ha|].
    intros k. apply per90_defined, Ha.
  - intros p. rewrite aggregate_players, sorted_keys_In, in_map_iff. split.
    + intros [r [<- Hr]]. apply process_matches_In in Hr.
      destruct Hr as [events [Hm Hr]]. exists events. split; [exact Hm|].
      apply process_match_In in Hr. tauto.
    + intros [events [Hm N]].
      exists {| Stage3.player := p;
                Stage3.minutes_played := Stage3.minute_max (Stage3.events_of p events);
                Stage3.matches_played := 1;
                Stage3.raw := tally (Stage3.events_of p events) |}.
      split; [reflexivity|].
      apply process_matches_In. exists events. split; [exact Hm|].
      apply process_match_In. simpl. auto.
Qed.

Lemma zero_minute_players_excluded_witness :
  map Stage4.agg_player
      (Stage4.aggregate (Stage3.process_matches Examples.tally [Examples.match1]))
  = ["Ada"%string]
  /\ ~ In "Bo"%string
        (map Stage4.agg_player
           (Stage4.aggregate
              (Stage3.process_matches Examples.tally [Examples.match1]))).
Proof.
  split; [reflexivity|].
  assert (N : forall events e, In events [Examples.match1] -> In e events ->
                               (0 <= Stage3.ev_minute e)%Z).
  { intros events e [<- | []] He. simpl in He.
    repeat (destruct He as [<- | He]; [simpl; lia|]). destruct He. }
  destruct (zero_minute_players_excluded Examples.tally [Examples.match1] N)
    as (_ & _ & K).
  intros C. apply K in C. destruct C as [events [[<- | []] M]].
  apply M. reflexivity.
Defined.

(** C6, amended.  For passes = 450, completed_passes = 400,
    key_passes = 20, assists = 3 and minutes_played = 900, stage 4 gives
    passes_per90 = 45, pass_accuracy = 800/9 (88.888..., not rounded),
    key_passes_per90 = 2 and assists_per90 = 0.3; in a competition of
    coefficient 1.0 and at an age of factor 1.0 the value handed to the
    scaler for passing is
    45*0.3 + (800/9)*0.25 + 2*0.25 + 0.3*0.2 = 16327/450 = 36.2822... *)
Theorem scenario_rates :
  let row := {| Stage5.stats :=
                  Examples.in_competition 2 (Stage4.to_stat_row Examples.scenario);
                Stage5.age := 28 |} in
  cell_is (Stage4.per90 Examples.scenario Stage3.passes) 45.0
  /\ cell_is (Stage4.pass_accuracy Examples.scenario) (800 # 9)
  /\ cell_is (Stage4.per90 Examples.scenario Stage3.key_passes) 2.0
  /\ cell_is (Stage4.per90 Examples.scenario Stage3.assists) 0.3
  /\ cell_is (Stage5.league row) 1.0
  /\ cell_is (Stage5.agef row) 1.0
  /\ cell_is (Stage5.base Stage5.passing row)
             (45.0 * 0.3 + (800 # 9) * 0.25 + 2.0 * 0.25 + 0.3 * 0.2)
  /\ 45.0 * 0.3 + (800 # 9) * 0.25 + 2.0 * 0.25 + 0.3 * 0.2 == 16327 # 450.
Proof.
  repeat split; vm_compute; reflexivity.
Qed.

(** C6 as stated fails: pass_accuracy is not 88.89, the pre-scale value
    is not 35.8225, and the sum the claim writes out is 36.2825. *)
Lemma scenario_rates_counterexample :
  let row := {| Stage5.stats :=
                  Examples.in_competition 2 (Stage4.to_stat_row Examples.scenario);
                Stage5.age := 28 |} in
  ~ cell_is (Stage4.pass_accuracy Examples.scenario) 88.89
  /\ ~ cell_is (Stage5.base Stage5.passing row) 35.8225
  /\ 45.0 * 0.3 + 88.89 * 0.25 + 2.0 * 0.25 + 0.3 * 0.2 == 36.2825
  /\ ~ (45.0 * 0.3 + 88.89 * 0.25 + 2.0 * 0.25 + 0.3 * 0.2 == 35.8225).
Proof.
  repeat split; vm_compute; (reflexivity || discriminate).
Qed.

(** ** More on the scaler: range, ties, extremes, rescaling *)

Section ScalerRange.
Import Scaler Spec.

Lemma round2_ge_1 (x : Q) : 1 <= x -> 1 <= round2 x.
Proof.
  intros L. apply Qle_trans with (100 # 100); [unfold Qle; simpl; lia|].
  apply round2_ge. apply Qle_trans with 1; [unfold Qle; simpl; lia | exact L].
Qed.

Lemma average_rank_nonneg s x : 0 <= average_rank s x.
Proof.
  unfold average_rank.
  pose proof (inject_nat_nonneg (count_less s x)).
  pose proof (inject_nat_nonneg (count_equal s x)).
  set (a := inject_Z (Z.of_nat (count_less s x))) in *.
  set (b := inject_Z (Z.of_nat (count_equal s x))) in *.
  unfold Qdiv. change (/ 2) with (1 # 2). lra.
Qed.

Lemma percentile_rank_nonneg s x : 0 <= percentile_rank s x.
Proof.
  unfold percentile_rank, Qdiv. apply Qmult_le_0_compat.
  - apply average_rank_nonneg.
  - apply Qinv_le_0_compat, inject_nat_nonneg.
Qed.

Lemma percentile_scaled_ge_1 s x : 1 <= percentile_scaled s x.
Proof.
  apply round2_ge_1. pose proof (percentile_rank_nonneg s x).
  set (p := percentile_rank s x) in *. lra.
Qed.

Lemma minmax_scaled_ge_1 s x : In x s -> 1 <= minmax_scaled s x.
Proof.
  intros Hx. apply round2_ge_1.
  pose proof (minmax_denominator_pos s x Hx) as D. unfold eps in D.
  pose proof (smin_le s x Hx).
  assert (0 <= 19 * (x - smin s) / (smax s - smin s + (1 # 100000000))).
  { apply Qle_shift_div_l; [exact D|]. lra. }
  set (q := 19 * (x - smin s) / _) in *. lra.
Qed.

Lemma percentile_to_1_20_length minutes series m :
  length (percentile_to_1_20 minutes series m) = length series.
Proof.
  rewrite percentile_to_1_20_branch. destruct (branch _ _ _).
  - unfold percentile_scale, rank_pct. rewrite !length_map. reflexivity.
  - unfold minmax_scale. rewrite !length_map. reflexivity.
Qed.

Lemma percentile_to_1_20_in_range minutes series m :
  Forall (fun v => 1 <= v <= 20) (percentile_to_1_20 minutes series m).
Proof.
  rewrite percentile_to_1_20_branch. destruct (branch _ _ _).
  - rewrite percentile_scale_spec. apply Forall_map_In. intros x Hx. split.
    + apply percentile_scaled_ge_1.
    + apply percentile_scaled_le_20, Hx.
  - rewrite minmax_scale_spec. apply Forall_map_In. intros x Hx. split.
    + apply minmax_scaled_ge_1, Hx.
    + apply minmax_scaled_le_20, Hx.
Qed.

End ScalerRange.

(** X1.  [percentile_to_1_20] returns one rating per entry of the
    series, and every rating lies in [1, 20], on both branches and
    whatever the mask. *)
Theorem percentile_to_1_20_shape :
  forall (minutes series : list cell) (min_minutes : Q),
    length (Scaler.percentile_to_1_20 minutes series min_minutes)
    = length series
    /\ Forall (fun v => 1 <= v <= 20)
              (Scaler.percentile_to_1_20 minutes series min_minutes).
Proof.
  intros. split.
  - apply percentile_to_1_20_length.
  - apply percentile_to_1_20_in_range.
Qed.

Section ScalerTies.
Import Scaler Spec.

Lemma filter_length_ext {A} (p q : A -> bool) (l : list A) :
  (forall y, p y = q y) -> length (filter p l) = length (filter q l).
Proof.
  intros E. induction l as [|y t IH]; [reflexivity|].
  simpl. rewrite E. destruct (q y); simpl; rewrite IH; reflexivity.
Qed.

Lemma count_less_comp s a b : a == b -> count_less s a = count_less s b.
Proof.
  intros E. unfold count_less. apply filter_length_ext.
  intros y. f_equal. apply Qleb_comp; [exact E | reflexivity].
Qed.

Lemma count_equal_comp s a b : a == b -> count_equal s a = count_equal s b.
Proof.
  intros E. unfold count_equal. apply filter_length_ext.
  intros y. apply Qeqb_comp; [reflexivity | exact E].
Qed.

Lemma percentile_scaled_comp s a b :
  a == b -> percentile_scaled s a = percentile_scaled s b.
Proof.
  intros E. unfold percentile_scaled, percentile_rank, average_rank.
  rewrite (count_less_comp s a b E), (count_equal_comp s a b E). reflexivity.
Qed.

Lemma minmax_scaled_comp s a b :
  a == b -> minmax_scaled s a = minmax_scaled s b.
Proof.
  intros E. unfold minmax_scaled. apply round2_comp. rewrite E. reflexivity.
Qed.

End ScalerTies.

Lemma scaled_ties (minutes series : list cell) (m : Q) (i j : nat) (a b : Q) :
  nth_error (map (fillna 0) series) i = Some a ->
  nth_error (map (fillna 0) series) j = Some b ->
  a == b ->
  nth i (Scaler.percentile_to_1_20 minutes series m) 0
  = nth j (Scaler.percentile_to_1_20 minutes series m) 0.
Proof.
  intros Hi Hj E.
  rewrite percentile_to_1_20_branch. destruct (Scaler.branch _ _ _).
  - rewrite percentile_scale_spec.
    destruct (nth_map_In (Spec.percentile_scaled (map (fillna 0) series)) _ i a Hi) as [-> _].
    destruct (nth_map_In (Spec.percentile_scaled (map (fillna 0) series)) _ j b Hj) as [-> _].
    apply percentile_scaled_comp, E.
  - rewrite minmax_scale_spec.
    destruct (nth_map_In (Spec.minmax_scaled (map (fillna 0) series)) _ i a Hi) as [-> _].
    destruct (nth_map_In (Spec.minmax_scaled (map (fillna 0) series)) _ j b Hj) as [-> _].
    apply minmax_scaled_comp, E.
Qed.

(** X2.  Tied values are rated alike: two entries of a series whose
    values (missing read as 0) are equal receive the same rating. *)
Theorem percentile_to_1_20_ties :
  forall (minutes series : list cell) (min_minutes : Q) (i j : nat) (a b : Q),
    nth_error (map (fillna 0) series) i = Some a ->
    nth_error (map (fillna 0) series) j = Some b ->
    a == b ->
    nth i (Scaler.percentile_to_1_20 minutes series min_minutes) 0
    = nth j (Scaler.percentile_to_1_20 minutes series min_minutes) 0.
Proof.
  intros minutes series m i j a b. apply scaled_ties.
Qed.

Lemma percentile_to_1_20_ties_witness :
  nth 1 (Scaler.percentile_to_1_20 [Some 600; Some 10; None]
                                   [Some 3; None; Some (0 # 5)] 500) 0
  = nth 2 (Scaler.percentile_to_1_20 [Some 600; Some 10; None]
                                     [Some 3; None; Some (0 # 5)] 500) 0.
Proof.
  apply (percentile_to_1_20_ties [Some 600; Some 10; None]
           [Some 3; None; Some (0 # 5)] 500 1%nat 2%nat 0 (0 # 5));
    reflexivity.
Defined.

Section ScalerEnds.
Import Scaler Spec.

Lemma fold_min_glb t x z :
  z <= x -> (forall y, In y t -> z <= y) -> z <= fold_left Qmin t x.
Proof.
  revert x. induction t as [|a t IH]; intros x Hx Ht; simpl; [exact Hx|].
  apply IH.
  - apply Q.min_glb; [exact Hx | apply Ht; simpl; auto].
  - intros y Hy. apply Ht. simpl. auto.
Qed.

Lemma smin_glb s z : s <> [] -> (forall y, In y s -> z <= y) -> z <= smin s.
Proof.
  destruct s as [|a t]; intros N H; [contradiction|]. simpl.
  apply fold_min_glb; [apply H; simpl; auto|].
  intros y Hy. apply H. simpl. auto.
Qed.

Lemma minmax_scaled_bottom s x :
  In x s -> (forall y, In y s -> x <= y) -> minmax_scaled s x = 1.00.
Proof.
  intros Hx Hmin. unfold minmax_scaled.
  assert (E : smin s == x).
  { apply Qle_antisym; [apply smin_le, Hx|].
    apply smin_glb; [|exact Hmin]. intros C. rewrite C in Hx. destruct Hx. }
  rewrite <- (round2_cents 100). apply round2_comp.
  rewrite E. unfold Qdiv. setoid_replace (x - x) with 0 by ring. ring.
Qed.

Lemma count_all_below s x :
  (forall y, In y s -> y <= x) ->
  (count_less s x + count_equal s x = length s)%nat.
Proof.
  unfold count_less, count_equal.
  induction s as [|y t IH]; intros H; [reflexivity|].
  assert (Hy : y <= x) by (apply H; simpl; auto).
  assert (Ht : forall z, In z t -> z <= x) by (intros z Hz; apply H; simpl; auto).
  specialize (IH Ht). simpl.
  destruct (Qeq_bool y x) eqn:E.
  - apply Qeq_bool_iff in E.
    assert (L : Qle_bool x y = true) by (apply Qle_bool_iff; lra).
    rewrite L. simpl. lia.
  - apply Qeq_bool_neq in E.
    destruct (Qle_bool x y) eqn:L.
    + apply Qle_bool_iff in L. exfalso. apply E. lra.
    + simpl. lia.
Qed.

Lemma count_equal_none s x :
  (forall y, In y s -> ~ y == x) -> count_equal s x = 0%nat.
Proof.
  unfold count_equal. induction s as [|y t IH]; intros H; [reflexivity|].
  simpl. destruct (Qeq_bool y x) eqn:E.
  - apply Qeq_bool_iff in E. exfalso. apply (H y); simpl; auto.
  - apply IH. intros z Hz. apply H. simpl. auto.
Qed.

(** An entry that is strictly above (or strictly below) every other
    entry occurs once. *)
Lemma count_equal_alone (R : Q -> Q -> Prop) s i x :
  (forall a b, R a b -> ~ a == b) ->
  nth_error s i = Some x ->
  (forall j y, j <> i -> nth_error s j = Some y -> R y x) ->
  count_equal s x = 1%nat.
Proof.
  intros HR. revert i. induction s as [|y t IH]; intros [|i] Hi H;
    simpl in Hi; try discriminate.
  - injection Hi as ->. unfold count_equal. simpl. rewrite Qeq_bool_refl.
    simpl. f_equal. apply count_equal_none.
    intros z Hz. apply In_nth_error in Hz. destruct Hz as [j Hj].
    apply HR. apply (H (S j)); [discriminate | exact Hj].
  - unfold count_equal. simpl.
    assert (N : Qeq_bool y x = false).
    { destruct (Qeq_bool y x) eqn:E; [|reflexivity].
      apply Qeq_bool_iff in E. exfalso.
      apply (HR y x); [|exact E]. apply (H 0%nat); [discriminate | reflexivity]. }
    rewrite N. apply (IH i Hi).
    intros j z Hj Hz. apply (H (S j)); [lia | exact Hz].
Qed.

Lemma percentile_scaled_of_counts s x :
  In x s ->
  percentile_scaled s x
  = round2 (1 + 19 * ((inject_Z (Z.of_nat (count_less s x))
                       + (inject_Z (Z.of_nat (count_equal s x)) + 1) / 2)
                      / inject_Z (Z.of_nat (length s)))).
Proof. reflexivity. Qed.

Lemma percentile_scaled_top s x :
  In x s -> (forall y, In y s -> y <= x) -> count_equal s x = 1%nat ->
  percentile_scaled s x = 20.00.
Proof.
  intros Hx Hmax H1.
  pose proof (count_all_below s x Hmax) as A. rewrite H1 in A.
  pose proof (length_pos_In s x Hx) as P.
  unfold percentile_scaled, percentile_rank, average_rank.
  rewrite H1. rewrite <- (round2_cents 2000). apply round2_comp.
  assert (E : inject_Z (Z.of_nat (count_less s x)) + 1
              == inject_Z (Z.of_nat (length s))).
  { change 1 with (inject_Z 1). rewrite <- inject_Z_plus.
    apply inject_Z_injective. lia. }
  pose proof (inject_nat_pos _ P) as Pn.
  set (n := inject_Z (Z.of_nat (length s))) in *.
  set (l := inject_Z (Z.of_nat (count_less s x))) in *.
  change (inject_Z (Z.of_nat 1)) with 1.
  setoid_replace (l + (1 + 1) / 2) with n by (rewrite <- E; field).
  field. intros C. rewrite C in Pn. lra.
Qed.

Lemma count_less_none s x :
  (forall y, In y s -> x <= y) -> count_less s x = 0%nat.
Proof.
  intros H. apply count_less_above. apply Forall_forall. exact H.
Qed.

Lemma percentile_scaled_bottom s x :
  In x s -> (forall y, In y s -> x <= y) -> count_equal s x = 1%nat ->
  percentile_scaled s x
  = round2 (1 + 19 / inject_Z (Z.of_nat (length s))).
Proof.
  intros Hx Hmin H1.
  unfold percentile_scaled, percentile_rank, average_rank.
  rewrite H1, (count_less_none s x Hmin). apply round2_comp.
  change (inject_Z (Z.of_nat 1)) with 1. change (inject_Z (Z.of_nat 0)) with 0.
  unfold Qdiv. setoid_replace (0 + (1 + 1) * / 2) with 1 by reflexivity. ring.
Qed.

End ScalerEnds.

(** X3.  On the fallback branch (no player reaches the minutes
    threshold) an entry holding the smallest value is rated 1.00; the
    1e-8 in the denominator keeps this defined when all values are
    equal, e.g. for a single player. *)
Theorem fallback_minimum_rated_1 :
  forall (minutes series : list cell) (min_minutes : Q) (i : nat) (x : Q),
    length series = length minutes ->
    Spec.qualifying min_minutes minutes = 0%nat ->
    nth_error (map (fillna 0) series) i = Some x ->
    (forall y, In y (map (fillna 0) series) -> x <= y) ->
    nth i (Scaler.percentile_to_1_20 minutes series min_minutes) 0 = 1.00.
Proof.
  intros minutes series m i x L Q0 Hi Hmin.
  rewrite percentile_to_1_20_scale by exact L. unfold Spec.scale. rewrite Q0.
  destruct (nth_map_In (Spec.minmax_scaled (map (fillna 0) series)) _ i x Hi)
    as [-> Hx].
  apply minmax_scaled_bottom; assumption.
Qed.

Lemma fallback_minimum_rated_1_witness :
  nth 0 (Scaler.percentile_to_1_20 [Some 90] [Some 36.28] 500) 0 = 1.00.
Proof.
  apply (fallback_minimum_rated_1 [Some 90] [Some 36.28] 500 0%nat 36.28);
    try reflexivity.
  intros y [<- | []]. apply Qle_refl.
Defined.

(** X4.  On the percentile branch (some player reaches the threshold)
    the entry strictly above all others is rated 20.00, and the entry
    strictly below all others [1 + 19/n] rounded to 2 decimals, [n] the
    number of players: the bottom of the scale is not reached. *)
Theorem percentile_extremes :
  forall (minutes series : list cell) (min_minutes : Q) (i : nat) (x : Q),
    length series = length minutes ->
    (0 < Spec.qualifying min_minutes minutes)%nat ->
    nth_error (map (fillna 0) series) i = Some x ->
    let out := Scaler.percentile_to_1_20 minutes series min_minutes in
    ((forall j y, j <> i -> nth_error (map (fillna 0) series) j = Some y ->
                  y < x) ->
     nth i out 0 = 20.00)
    /\ ((forall j y, j <> i -> nth_error (map (fillna 0) series) j = Some y ->
                     x < y) ->
        nth i out 0
        = round2 (1 + 19 / inject_Z (Z.of_nat (length series)))).
Proof.
  intros minutes series m i x L Qp Hi out. unfold out.
  rewrite percentile_to_1_20_scale by exact L. unfold Spec.scale.
  destruct (Spec.qualifying m minutes) as [|k]; [lia|].
  set (s := map (fillna 0) series) in *.
  destruct (nth_map_In (Spec.percentile_scaled s) s i x Hi) as [-> Hx].
  assert (Others : forall (R : Q -> Q -> Prop),
             (forall j y, j <> i -> nth_error s j = Some y -> R y x) ->
             forall y, In y s -> y == x \/ R y x).
  { intros R H y Hy. apply In_nth_error in Hy. destruct Hy as [j Hj].
    destruct (Nat.eq_dec j i) as [-> | N].
    - left. rewrite Hi in Hj. injection Hj as ->. reflexivity.
    - right. apply (H j y N Hj). }
  split; intros H.
  - apply percentile_scaled_top; [exact Hx| |].
    + intros y Hy. destruct (Others _ H y Hy); lra.
    + apply (count_equal_alone (fun a b => a < b) s i x); auto.
      intros a b Hab E. lra.
  - replace (length series) with (length s) by (unfold s; apply length_map).
    apply percentile_scaled_bottom; [exact Hx| |].
    + intros y Hy. destruct (Others (fun a b => b < a) H y Hy); lra.
    + apply (count_equal_alone (fun a b => b < a) s i x); auto.
      intros a b Hab E. lra.
Qed.

Lemma percentile_extremes_witness :
  nth 0 (Scaler.percentile_to_1_20 [Some 600; Some 10; None]
                                   [Some 3; None; Some 2.5] 500) 0 = 20.00.
Proof.
  refine (proj1 (percentile_extremes [Some 600; Some 10; None]
                   [Some 3; None; Some 2.5] 500 0%nat 3 _ _ _) _);
    try reflexivity.
  - vm_compute. lia.
  - intros [|[|[|j]]] y N E.
    + exfalso. apply N. reflexivity.
    + injection E as <-. reflexivity.
    + injection E as <-. reflexivity.
    + destruct j; discriminate E.
Defined.

Section ScalerOrder.
Import Scaler Spec.

Lemma filter_map_length {A B} (p : B -> bool) (f : A -> B) (l : list A) :
  length (filter p (map f l)) = length (filter (fun a => p (f a)) l).
Proof.
  induction l as [|a t IH]; [reflexivity|].
  simpl. destruct (p (f a)); simpl; rewrite IH; reflexivity.
Qed.

Lemma filter_length_ext_in {A} (p q : A -> bool) (l : list A) :
  (forall y, In y l -> p y = q y) -> length (filter p l) = length (filter q l).
Proof.
  induction l as [|y t IH]; intros E; [reflexivity|].
  simpl. rewrite (E y) by (simpl; auto).
  destruct (q y); simpl; rewrite IH; auto; intros z Hz; apply E; simpl; auto.
Qed.

Lemma Qle_bool_eq a b c d : (a <= b <-> c <= d) -> Qle_bool a b = Qle_bool c d.
Proof.
  intros H. destruct (Qle_bool a b) eqn:E1, (Qle_bool c d) eqn:E2; try reflexivity.
  - apply Qle_bool_iff in E1. apply H in E1. apply Qle_bool_iff in E1. congruence.
  - apply Qle_bool_iff in E2. apply H in E2. apply Qle_bool_iff in E2. congruence.
Qed.

Lemma Qeq_bool_eq a b c d : (a == b <-> c == d) -> Qeq_bool a b = Qeq_bool c d.
Proof.
  intros H. destruct (Qeq_bool a b) eqn:E1, (Qeq_bool c d) eqn:E2; try reflexivity.
  - apply Qeq_bool_iff in E1. apply H in E1. apply Qeq_bool_iff in E1. congruence.
  - apply Qeq_bool_iff in E2. apply H in E2. apply Qeq_bool_iff in E2. congruence.
Qed.

(** Two readings [f] and [f'] of the same entries that order them alike
    give the same percentile ratings. *)
Lemma percentile_scaled_embedding {A} (f f' : A -> Q) (l : list A) (c : A) :
  (forall d, In d l -> (f' c <= f' d <-> f c <= f d)
                       /\ (f' d <= f' c <-> f d <= f c)) ->
  percentile_scaled (map f' l) (f' c) = percentile_scaled (map f l) (f c).
Proof.
  intros H. unfold percentile_scaled, percentile_rank, average_rank.
  assert (L : count_less (map f' l) (f' c) = count_less (map f l) (f c)).
  { unfold count_less. rewrite !filter_map_length.
    apply filter_length_ext_in. intros d Hd. f_equal.
    apply Qle_bool_eq. apply (H d Hd). }
  assert (E : count_equal (map f' l) (f' c) = count_equal (map f l) (f c)).
  { unfold count_equal. rewrite !filter_map_length.
    apply filter_length_ext_in. intros d Hd.
    apply Qeq_bool_eq. destruct (H d Hd) as [H1 H2].
    split; intros Q; apply Qle_antisym;
      first [apply H1 | apply H2 | apply <- H1 | apply <- H2]; rewrite Q; apply Qle_refl. }
  rewrite L, E, !length_map. reflexivity.
Qed.

Lemma fillna_scaled (k : Q) (c : cell) :
  fillna 0 (nmul c (Some k)) == fillna 0 c * k.
Proof. destruct c; simpl; ring. Qed.

End ScalerOrder.

(** X5.  On the percentile branch the ratings depend on the order of
    the values only: multiplying every value of the metric by the same
    positive factor (the league coefficient of a one-competition table,
    say) changes no rating. *)
Theorem percentile_scaling_invariant :
  forall (minutes series : list cell) (min_minutes k : Q),
    length series = length minutes ->
    (0 < Spec.qualifying min_minutes minutes)%nat ->
    0 < k ->
    Scaler.percentile_to_1_20 minutes
      (map (fun c => nmul c (Some k)) series) min_minutes
    = Scaler.percentile_to_1_20 minutes series min_minutes.
Proof.
  intros minutes series m k L Qp Hk.
  rewrite !percentile_to_1_20_scale by (rewrite ?length_map; exact L).
  unfold Spec.scale. destruct (Spec.qualifying m minutes) as [|n]; [lia|].
  rewrite !map_map. apply map_ext_in. intros c Hc.
  apply (percentile_scaled_embedding
           (fillna 0) (fun c => fillna 0 (nmul c (Some k))) series c).
  intros d Hd. rewrite !fillna_scaled.
  split; apply (Qmult_le_r _ _ k Hk).
Qed.

Lemma percentile_scaling_invariant_witness :
  Scaler.percentile_to_1_20 [Some 600; Some 10; None]
    (map (fun c => nmul c (Some 0.8)) [Some 3; None; Some 2.5]) 500
  = Scaler.percentile_to_1_20 [Some 600; Some 10; None]
      [Some 3; None; Some 2.5] 500.
Proof.
  apply (percentile_scaling_invariant [Some 600; Some 10; None]
           [Some 3; None; Some 2.5] 500 0.8);
    try reflexivity.
  vm_compute. lia.
Defined.

(** ** More on stage 5: context factors, the table, its ranges *)

Section ContextFactors.
Import Stage5 Table.

Lemma dict_get_missing d k dflt :
  ~ In k (map fst d) -> dict_get d k dflt = dflt.
Proof.
  intros H. unfold dict_get.
  induction d as [|kv t IH]; [reflexivity|]. simpl in *.
  destruct (Z.eqb_spec (fst kv) k) as [E|E]; [exfalso; auto|].
  apply IH. intros C. apply H. auto.
Qed.

Lemma dict_get_first d k v dflt :
  NoDup (map fst d) -> In (k, v) d -> dict_get d k dflt = v.
Proof.
  unfold dict_get. induction d as [|kv t IH]; intros N H; [destruct H|].
  simpl in *. inversion N as [|x l Nx Nt]; subst.
  destruct H as [-> | H].
  - simpl. rewrite Z.eqb_refl. reflexivity.
  - destruct (Z.eqb_spec (fst kv) k) as [E|E].
    + exfalso. apply Nx. rewrite E.
      change k with (fst (k, v)). apply in_map, H.
    + apply IH; assumption.
Qed.

Lemma league_coeffs_keys_distinct : NoDup (map fst league_coeffs).
Proof.
  unfold league_coeffs. simpl.
  repeat (constructor; [simpl; intros C; repeat (destruct C as [C|C]; [discriminate C|]); exact C|]).
  constructor.
Qed.

(** X6.  [get_league_coefficient]: a listed competition gets the value
    the table lists for it, any other competition (and a missing one)
    gets the default 0.8, and every coefficient lies in [0.75, 1.1]. *)
Theorem league_coefficient_lookup :
  (forall k v, In (k, v) league_coeffs -> get_league_coefficient (Some k) = v)
  /\ (forall k, ~ In k (map fst league_coeffs) ->
                get_league_coefficient (Some k) = 0.8)
  /\ get_league_coefficient None = 0.8
  /\ forall comp_id, 0.75 <= get_league_coefficient comp_id <= 1.1.
Proof.
  split; [|split; [|split]].
  - intros k v H. apply dict_get_first; [apply league_coeffs_keys_distinct | exact H].
  - intros k H. apply dict_get_missing, H.
  - reflexivity.
  - apply get_league_coefficient_range.
Qed.

(** X7.  [calculate_age_factor] is a step function that never rises
    with age, from 1.1 (up to 21) down to 0.95 (over 30). *)
Theorem age_factor_decreasing :
  forall a b : Z,
    (a <= b)%Z ->
    calculate_age_factor b <= calculate_age_factor a
    /\ 0.95 <= calculate_age_factor b
    /\ calculate_age_factor a <= 1.1.
Proof.
  intros a b H. unfold calculate_age_factor.
  destruct (Z.leb_spec a 21), (Z.leb_spec a 25), (Z.leb_spec a 30),
    (Z.leb_spec b 21), (Z.leb_spec b 25), (Z.leb_spec b 30);
    try lia; repeat split; lra.
Qed.

Lemma age_factor_decreasing_witness :
  calculate_age_factor 31 <= calculate_age_factor 19
  /\ 0.95 <= calculate_age_factor 31
  /\ calculate_age_factor 19 <= 1.1.
Proof.
  apply (age_factor_decreasing 19 31). lia.
Defined.

End ContextFactors.

Section PADraw.
Import Stage5.
Context {G : Type} `{RS : Rand.RandomState G}.

Lemma PA_of_formula ca u : PA_of ca u == Qmin 20 (ca + Qmax 0 u).
Proof.
  unfold PA_of. rewrite py_min_Qmin, py_max_Qmax.
  apply Q.min_compat; [reflexivity|].
  destruct (Q.max_spec ca (ca + u)) as [[L ->] | [L ->]];
    destruct (Q.max_spec 0 u) as [[L' ->] | [L' ->]]; lra.
Qed.

End PADraw.

(** X8.  [compute_PA] draws exactly one normal perturbation, with mean 0
    and the scale of the age band, and returns
    [min(20, CA + max(0, base_uplift + z))]: a negative total uplift
    leaves PA at CA (or at the cap), it never lowers it. *)
Theorem compute_PA_formula :
  forall (G : Type) (RS : Rand.RandomState G) (ca : Q) (age : Z) (g : G),
    let base_uplift := fst (Stage5.uplift_band age) in
    let scale := snd (Stage5.uplift_band age) in
    let z := fst (Rand.normal 0 scale g) in
    fst (Stage5.compute_PA ca age g)
    == Qmin 20 (ca + Qmax 0 (base_uplift + z))
    /\ snd (Stage5.compute_PA ca age g) = snd (Rand.normal 0 scale g)
    /\ (base_uplift + z <= 0 -> ca <= 20 ->
        fst (Stage5.compute_PA ca age g) == ca).
Proof.
  intros G RS ca age g base_uplift scale z.
  unfold Stage5.compute_PA. subst base_uplift scale z.
  destruct (Stage5.uplift_band age) as [b v]. simpl.
  destruct (Rand.normal 0 v g) as [z g']. simpl.
  split; [apply PA_of_formula|]. split; [reflexivity|].
  intros U C. unfold Stage5.PA_of, py_min, py_max.
  destruct (Qlt_le_dec ca (ca + (b + z))); [lra|].
  destruct (Qlt_le_dec ca 20); lra.
Qed.

Section TableShape.
Import Stage5 Table.
Context {G : Type} `{RS : Rand.RandomState G}.

Lemma enumerate_In {A} (l : list A) k i x :
  In (i, x) (enumerate k l) -> (k <= i)%nat /\ nth_error l (i - k) = Some x.
Proof.
  revert k. induction l as [|y t IH]; intros k H; [destruct H|].
  simpl in H. destruct H as [E | H].
  - injection E as -> ->. split; [lia|]. rewrite Nat.sub_diag. reflexivity.
  - apply IH in H. destruct H as [L N]. split; [lia|].
    replace (i - k)%nat with (S (i - S k)) by lia. exact N.
Qed.

Lemma random_tape_ages n (g : G) :
  fst (random_tape n g) = fst (draw_ages n g).
Proof. unfold random_tape. destruct (draw_ages n g). reflexivity. Qed.

(** Every row of the table is the rated row of a row of the frame, at
    that row's position. *)
Lemma calculate_rows_in_frame df (g : G) out :
  In out (fst (calculate df g)) ->
  exists i r u,
    nth_error (frame df g) i = Some r
    /\ out = with_PA (rated (frame df g) i r)
                     (PA_of (CA (rated (frame df g) i r)) u).
Proof.
  rewrite calculate_table_of. unfold table_of.
  rewrite random_tape_ages. fold (frame df g).
  unfold with_draws. rewrite in_map_iff.
  intros [[[r0 a] z] [<- H]]. apply in_combine_l in H.
  unfold rated_rows in H. apply in_map_iff in H.
  destruct H as [[i r] [E H]]. simpl in E. injection E as <- <-.
  apply enumerate_In in H. destruct H as [_ H]. rewrite Nat.sub_0_r in H.
  exists i, r, (fst (uplift_band (age r)) + z). simpl. auto.
Qed.

Lemma attribute_length df a : length (attribute df a) = length df.
Proof.
  unfold attribute. rewrite percentile_to_1_20_length, length_map. reflexivity.
Qed.

Lemma attribute_in_range df a i :
  (i < length df)%nat -> 1 <= nth i (attribute df a) 0 <= 20.
Proof.
  intros H.
  pose proof (percentile_to_1_20_in_range
                (map (fun r => get r minutes_played) df) (map (base a) df)
                Scaler.default_min_minutes) as F.
  fold (attribute df a) in F. rewrite Forall_forall in F. apply F.
  apply nth_In. rewrite attribute_length. exact H.
Qed.

Lemma is_rated_name st out : is_rated st out -> out_player_name out = player_name st.
Proof. intros (df & i & a & u & ->). reflexivity. Qed.

Lemma Forall2_map_eq {A B C} (f : A -> C) (h : B -> C) (l : list A) (l' : list B) :
  Forall2 (fun a b => h b = f a) l l' -> map h l' = map f l.
Proof.
  induction 1 as [|a b l l' E _ IH]; [reflexivity|]. simpl. congruence.
Qed.

End TableShape.

(** X9.  On a non-empty [player_stats] the stage ends with status 0 and
    saves a table with exactly one row per row read, in the same order
    and under the same player names; [player_stats] itself is left as it
    was. *)
Theorem main_saves_one_row_per_player :
  forall (G : Type) (RS : Rand.RandomState G) (db : Stage5.Database) (g : G),
    Stage5.player_stats db <> [] ->
    exists table,
      Stage5.db_after (fst (Stage5.main db g))
      = {| Stage5.player_stats := Stage5.player_stats db;
           Stage5.player_attributes := Some table |}
      /\ map Stage5.out_player_name table
         = map Table.player_name (Stage5.player_stats db)
      /\ length table = length (Stage5.player_stats db)
      /\ Stage5.exit_status (fst (Stage5.main db g)) = 0%Z.
Proof.
  intros G RS db g N. unfold Stage5.main.
  destruct (Stage5.player_stats db) as [|st t] eqn:E; [contradiction|].
  cbn [length Nat.eqb].
  pose proof (calculate_rated (st :: t) g) as R.
  destruct (Stage5.calculate (st :: t) g) as [table g']. simpl in R.
  exists table. cbn [fst Stage5.db_after Stage5.exit_status].
  split; [reflexivity|]. split; [|split; [|reflexivity]].
  - apply Forall2_map_eq. eapply Forall2_impl; [|exact R].
    intros a b. apply is_rated_name.
  - rewrite <- (Forall2_length R). reflexivity.
Qed.

Lemma main_saves_one_row_per_player_witness :
  exists table,
    Stage5.db_after
      (fst (Stage5.main
              {| Stage5.player_stats := [Examples.stored "Ada" 0;
                                         Examples.stored "Bo" 37];
                 Stage5.player_attributes := None |} (Rand.seed 2)))
    = {| Stage5.player_stats := [Examples.stored "Ada" 0;
                                 Examples.stored "Bo" 37];
         Stage5.player_attributes := Some table |}
    /\ map Stage5.out_player_name table = ["Ada"%string; "Bo"%string].
Proof.
  destruct (main_saves_one_row_per_player Z lcg_random_state
              {| Stage5.player_stats := [Examples.stored "Ada" 0;
                                         Examples.stored "Bo" 37];
                 Stage5.player_attributes := None |} (Rand.seed 2))
    as (table & E & Nm & _ & _).
  - discriminate.
  - exists table. split; [exact E | exact Nm].
Defined.

(** X10.  Every attribute of every row of the computed table lies in
    [1, 20]. *)
Theorem attributes_in_range :
  forall (G : Type) (RS : Rand.RandomState G)
         (df_stats : list Table.StatRow) (g : G),
    Forall (fun out => forall a, 1 <= Stage5.out_attr out a <= 20)
           (fst (Stage5.calculate df_stats g)).
Proof.
  intros G RS df g. apply Forall_forall. intros out H.
  apply calculate_rows_in_frame in H. destruct H as (i & r & u & Hi & ->).
  intros a. cbn [Stage5.out_attr Stage5.with_PA Stage5.rated].
  apply attribute_in_range. apply nth_error_Some. congruence.
Qed.

Section RatingRange.
Import Stage5 Table.

Lemma base_ca_ge_1 (attrs : Attr -> Q) p :
  (forall a, 1 <= attrs a) ->
  1 <= fold_left (fun acc kw => acc + attrs (fst kw) * snd kw) (weights p) 0.
Proof.
  intros H.
  destruct p; cbn [weights fold_left fst snd];
    repeat match goal with
           | |- context [attrs ?a] =>
               let v := fresh "v" in
               pose proof (H a); set (v := attrs a) in *; clearbody v
           end; lra.
Qed.

Lemma position_age_factor_mix_tight a :
  0.1 * position_age_factor GK a + 0.3 * position_age_factor DEF a
  + 0.3 * position_age_factor MID a + 0.3 * position_age_factor FWD a
  <= 1.045.
Proof.
  unfold position_age_factor, between.
  destruct (Z.leb_spec 28 a), (Z.leb_spec a 32), (Z.leb_spec 26 a),
    (Z.leb_spec a 30), (Z.leb_spec 24 a), (Z.leb_spec a 28),
    (Z.leb_spec 22 a), (Z.leb_spec a 26); simpl; try lia; lra.
Qed.

Lemma compute_position_CA_range r attrs p :
  (forall a, 1 <= attrs a <= 20) ->
  0.75 <= compute_position_CA r attrs p <= 22 * position_age_factor p (age r).
Proof.
  intros H. unfold compute_position_CA.
  pose proof (base_ca_le_20 attrs p (fun a => proj2 (H a))) as B.
  pose proof (base_ca_ge_1 attrs p (fun a => proj1 (H a))) as B1.
  pose proof (get_league_coefficient_range (competition_id (stats r))) as R.
  set (b := fold_left _ _ _) in *.
  set (c := get_league_coefficient _) in *.
  assert (P : b * c <= 22).
  { apply Qle_trans with (20 * c); [|lra]. apply Qmult_le_compat_r; lra. }
  assert (P1 : 0.75 <= b * c).
  { apply Qle_trans with (1 * c); [lra|]. apply Qmult_le_compat_r; lra. }
  set (bc := b * c) in *.
  destruct (position_age_factor_cases p (age r)) as [-> | [-> | ->]]; split;
    first [ apply (round2_ge _ 75); lra
          | apply (round2_le_q _ _ 2200); [reflexivity | lra]
          | apply (round2_le_q _ _ 2310); [reflexivity | lra]
          | apply (round2_le_q _ _ 2420); [reflexivity | lra] ].
Qed.

Lemma position_age_factor_le p a :
  position_age_factor p a <= match p with GK => 1.1 | _ => 1.05 end.
Proof.
  destruct p; simpl; destruct (between _ _ _); lra.
Qed.

Lemma rated_range df i r :
  (i < length df)%nat ->
  let out := rated df i r in
  0.75 <= CA out <= 22.99
  /\ 0.75 <= CA_GK out <= 24.2
  /\ 0.75 <= CA_DEF out <= 23.1
  /\ 0.75 <= CA_MID out <= 23.1
  /\ 0.75 <= CA_FWD out <= 23.1.
Proof.
  intros Hi out. subst out. unfold rated. cbn [CA CA_GK CA_DEF CA_MID CA_FWD].
  set (attrs := fun a => nth i (attribute df a) 0).
  assert (H : forall a, 1 <= attrs a <= 20).
  { intros a. apply attribute_in_range, Hi. }
  pose proof (compute_position_CA_range r attrs GK H) as HG.
  pose proof (compute_position_CA_range r attrs DEF H) as HD.
  pose proof (compute_position_CA_range r attrs MID H) as HM.
  pose proof (compute_position_CA_range r attrs FWD H) as HF.
  pose proof (position_age_factor_mix_tight (age r)) as MX.
  pose proof (position_age_factor_le GK (age r)) as FG.
  pose proof (position_age_factor_le DEF (age r)) as FD.
  pose proof (position_age_factor_le MID (age r)) as FM.
  pose proof (position_age_factor_le FWD (age r)) as FF.
  cbv iota in FG, FD, FM, FF.
  unfold overall_CA.
  repeat match goal with
         | H : context [compute_position_CA r attrs ?p] |- _ =>
             let v := fresh "ca" in
             set (v := compute_position_CA r attrs p) in *; clearbody v
         end.
  repeat match goal with
         | H : context [position_age_factor ?p (age r)] |- _ =>
             let v := fresh "f" in
             set (v := position_age_factor p (age r)) in *; clearbody v
         end.
  repeat split; try lra.
  - apply (round2_ge _ 75). lra.
  - apply (round2_le_q _ _ 2299); [reflexivity | lra].
Qed.

End RatingRange.

(** X11.  The ratings of every row of the computed table are bounded:
    each position CA is at least 0.75 and at most 24.2 (GK) or 23.1
    (DEF, MID, FWD), and the overall CA lies in [0.75, 22.99]; the upper
    end is reached by a lone qualifying player of age 26 in
    competition 37. *)
Theorem ratings_in_range :
  (forall (G : Type) (RS : Rand.RandomState G)
          (df_stats : list Table.StatRow) (g : G),
      Forall (fun out =>
                0.75 <= Stage5.CA out <= 22.99
                /\ 0.75 <= Stage5.CA_GK out <= 24.2
                /\ 0.75 <= Stage5.CA_DEF out <= 23.1
                /\ 0.75 <= Stage5.CA_MID out <= 23.1
                /\ 0.75 <= Stage5.CA_FWD out <= 23.1)
             (fst (Stage5.calculate df_stats g)))
  /\ map Stage5.age (Stage5.frame [Examples.stored "Ada" 37] (Rand.seed 5))
     = [26%Z]
  /\ map Stage5.CA
         (fst (Stage5.calculate [Examples.stored "Ada" 37] (Rand.seed 5)))
     = [22.99].
Proof.
  split; [|split; vm_compute; reflexivity].
  intros G RS df g. apply Forall_forall. intros out H.
  apply calculate_rows_in_frame in H. destruct H as (i & r & u & Hi & ->).
  cbn [Stage5.CA Stage5.CA_GK Stage5.CA_DEF Stage5.CA_MID Stage5.CA_FWD
       Stage5.with_PA].
  apply rated_range. apply nth_error_Some. congruence.
Qed.

Section GoalkeepingColumns.
Import Stage5 Table.
Context {G : Type} `{RS : Rand.RandomState G}.

Lemma frame_stats df (g : G) : map stats (frame df g) = map add_touches df.
Proof.
  unfold frame. apply assign_age_stats.
  rewrite length_map. apply draw_ages_length.
Qed.

Lemma frame_row_stats df (g : G) i r :
  nth_error (frame df g) i = Some r ->
  exists st, nth_error df i = Some st /\ stats r = add_touches st.
Proof.
  intros H.
  assert (E : nth_error (map stats (frame df g)) i = Some (stats r)).
  { rewrite nth_error_map, H. reflexivity. }
  rewrite frame_stats, nth_error_map in E.
  destruct (nth_error df i) as [st|]; [|discriminate].
  exists st. simpl in E. split; [reflexivity | congruence].
Qed.

(** A goalkeeping metric of a row stored by stage 4 is NaN. *)
Lemma stored_goalkeeping_base x (a : Z) attr :
  attr = goalkeeping \/ attr = reflexes \/ attr = handling ->
  base attr {| stats := add_touches (Stage4.to_stat_row x); age := a |} = None.
Proof.
  intros [-> | [-> | ->]]; reflexivity.
Qed.

End GoalkeepingColumns.

(** X12.  On a table made of rows stored by stage 4 the goalkeeping
    columns it leaves NULL make the metrics of [goalkeeping], [reflexes]
    and [handling] NaN for everyone, so each of these three attributes
    is the same number for every player of the table. *)
Theorem goalkeeping_attributes_constant :
  forall (G : Type) (RS : Rand.RandomState G)
         (aggregated : list Stage4.AggRow) (g : G)
         (attr : Stage5.Attr) (out1 out2 : Stage5.AttrRow),
    attr = Stage5.goalkeeping \/ attr = Stage5.reflexes
    \/ attr = Stage5.handling ->
    In out1 (fst (Stage5.calculate (map Stage4.to_stat_row aggregated) g)) ->
    In out2 (fst (Stage5.calculate (map Stage4.to_stat_row aggregated) g)) ->
    Stage5.out_attr out1 attr = Stage5.out_attr out2 attr.
Proof.
  intros G RS aggs g attr out1 out2 Ha H1 H2.
  apply calculate_rows_in_frame in H1. destruct H1 as (i & r1 & u1 & Hi & ->).
  apply calculate_rows_in_frame in H2. destruct H2 as (j & r2 & u2 & Hj & ->).
  cbn [Stage5.out_attr Stage5.with_PA Stage5.rated].
  set (F := Stage5.frame (map Stage4.to_stat_row aggs) g) in *.
  assert (Z0 : forall k r, nth_error F k = Some r ->
                 nth_error (map (fillna 0) (map (Stage5.base attr) F)) k = Some 0).
  { intros k r Hk. rewrite !nth_error_map, Hk. simpl. do 2 f_equal.
    destruct (frame_row_stats _ g k r Hk) as (st & Hst & E).
    rewrite nth_error_map in Hst.
    destruct (nth_error aggs k) as [x|]; [|discriminate].
    injection Hst as <-. destruct r as [s a]. simpl in E. subst s.
    rewrite (stored_goalkeeping_base x a attr Ha). reflexivity. }
  unfold Stage5.attribute.
  apply (scaled_ties _ _ _ i j 0 0); [apply (Z0 i r1 Hi) | apply (Z0 j r2 Hj) | reflexivity].
Qed.

Lemma goalkeeping_attributes_constant_witness :
  match fst (Stage5.calculate
               (map Stage4.to_stat_row [Examples.scenario; Examples.scenario])
               (Rand.seed 2)) with
  | out1 :: out2 :: _ =>
      Stage5.out_attr out1 Stage5.handling = Stage5.out_attr out2 Stage5.handling
  | _ => True
  end.
Proof.
  pose proof (goalkeeping_attributes_constant Z lcg_random_state
                [Examples.scenario; Examples.scenario] (Rand.seed 2)
                Stage5.handling) as H.
  destruct (fst (Stage5.calculate _ _)) as [|out1 [|out2 t]]; try exact I.
  apply H; simpl; auto.
Defined.

(** ** More on stages 3 and 4: rates, groups, totals, re-runs *)

(** X13.  For a player with positive minutes a per-90 rate is defined
    and gives the count back when multiplied by [minutes_played / 90];
    a counter at 0 gives a rate of 0, and over exactly 90 minutes the
    rate is the count. *)
Theorem per90_round_trip :
  forall (a : Stage4.AggRow) (k : Stage3.RawStat),
    (0 < Stage4.agg_minutes_played a)%Z ->
    exists q,
      Stage4.per90 a k = Some q
      /\ q * (inject_Z (Stage4.agg_minutes_played a) / 90) == Stage4.agg_raw a k
      /\ (Stage4.agg_raw a k == 0 -> q == 0)
      /\ (Stage4.agg_minutes_played a = 90%Z -> q == Stage4.agg_raw a k).
Proof.
  intros a k H. rewrite (per90_defined a k H).
  eexists. split; [reflexivity|].
  assert (P : 0 < inject_Z (Stage4.agg_minutes_played a)).
  { change 0 with (inject_Z 0). rewrite <- Zlt_Qlt. exact H. }
  set (m := inject_Z (Stage4.agg_minutes_played a)) in *.
  assert (N : ~ m == 0) by lra.
  split; [field; exact N|]. split.
  - intros E. rewrite E. field. exact N.
  - intros E. subst m. rewrite E. field.
Qed.

Lemma per90_round_trip_witness :
  exists q,
    Stage4.per90 Examples.scenario Stage3.passes = Some q
    /\ q * (inject_Z 900 / 90) == 450.
Proof.
  destruct (per90_round_trip Examples.scenario Stage3.passes) as (q & E & R & _).
  - reflexivity.
  - exists q. split; [exact E | exact R].
Defined.

(** X14.  [pass_accuracy] is always a number: with
    [0 <= completed_passes <= passes] it is the percentage
    [completed / passes * 100], within [0, 100], and for a player
    without a pass the NaN of [0/0] is replaced by 0. *)
Theorem pass_accuracy_range :
  forall a : Stage4.AggRow,
    let p := Stage4.agg_raw a Stage3.passes in
    let c := Stage4.agg_raw a Stage3.completed_passes in
    0 <= c <= p ->
    exists q,
      Stage4.pass_accuracy a = Some q
      /\ 0 <= q <= 100
      /\ (p == 0 -> q == 0)
      /\ (0 < p -> q == c / p * 100).
Proof.
  intros a p c H. unfold Stage4.pass_accuracy. fold p. fold c.
  eexists. split; [reflexivity|].
  unfold ndiv, nmul, lift2.
  destruct (Qeq_bool p 0) eqn:E.
  - apply Qeq_bool_iff in E. simpl. repeat split; lra.
  - apply Qeq_bool_neq in E. simpl.
    assert (P : 0 < p) by lra.
    assert (R : 0 <= c / p <= 1).
    { split.
      - apply Qle_shift_div_l; lra.
      - apply Qle_shift_div_r; lra. }
    set (r := c / p) in *.
    repeat split; lra.
Qed.

Lemma pass_accuracy_range_witness :
  exists q, Stage4.pass_accuracy Examples.scenario = Some q /\ 0 <= q <= 100.
Proof.
  destruct (pass_accuracy_range Examples.scenario) as (q & E & R & _).
  - vm_compute. split; discriminate.
  - exists q. split; [exact E | exact R].
Defined.

Section AggregateFacts.
Import Stage3 Stage4.

Lemma unique_NoDup l : NoDup (unique l).
Proof.
  induction l as [|x t IH]; simpl; [constructor|].
  constructor.
  - rewrite filter_In. intros [_ C]. rewrite String.eqb_refl in C. discriminate.
  - apply NoDup_filter, IH.
Qed.

Lemma insert_key_NoDup k l : ~ In k l -> NoDup l -> NoDup (insert_key k l).
Proof.
  intros N H. induction H as [|y t Hy Ht IH]; simpl.
  - constructor; [exact N | constructor].
  - destruct (String.leb k y).
    + constructor; [exact N | constructor; assumption].
    + constructor.
      * rewrite insert_key_In. intros [-> | C]; [apply N; simpl; auto | auto].
      * apply IH. intros C. apply N. simpl. auto.
Qed.

Lemma sort_keys_NoDup l : NoDup l -> NoDup (fold_right insert_key [] l).
Proof.
  induction 1 as [|k t Hk Ht IH]; simpl; [constructor|].
  apply insert_key_NoDup; [|exact IH].
  intros C. apply Hk. clear - C.
  induction t as [|y t IH]; simpl in *; [exact C|].
  apply insert_key_In in C. destruct C as [-> | C]; auto.
Qed.

Lemma sorted_keys_NoDup rows : NoDup (sorted_keys rows).
Proof. apply sort_keys_NoDup, unique_NoDup. Qed.

Import Keys.

Lemma insert_key_HdRel k y l :
  name_le y k -> HdRel name_le y l -> HdRel name_le y (insert_key k l).
Proof.
  intros Hk H. destruct H as [|z t Hz]; simpl.
  - constructor. exact Hk.
  - destruct (String.leb k z); constructor; assumption.
Qed.

Lemma insert_key_Sorted k l : Sorted name_le l -> Sorted name_le (insert_key k l).
Proof.
  induction 1 as [|y t Ht IH Hy]; simpl.
  - repeat constructor.
  - destruct (String.leb k y) eqn:E.
    + constructor; [constructor; assumption | constructor; exact E].
    + constructor; [exact IH|].
      apply insert_key_HdRel; [|exact Hy].
      destruct (String.leb_total k y) as [C|C]; [congruence | exact C].
Qed.

Lemma sorted_keys_Sorted rows : Sorted name_le (sorted_keys rows).
Proof.
  unfold sorted_keys. induction (unique (map player rows)) as [|k t IH]; simpl.
  - constructor.
  - apply insert_key_Sorted, IH.
Qed.

End AggregateFacts.

(** X15.  [groupby("player")] yields one row per distinct player name:
    the aggregated names are exactly the names of the per-match rows,
    none occurs twice, and they come in ascending order. *)
Theorem aggregate_one_row_per_player :
  forall rows : list Stage3.MatchRow,
    NoDup (map Stage4.agg_player (Stage4.aggregate rows))
    /\ (forall p, In p (map Stage4.agg_player (Stage4.aggregate rows))
                  <-> In p (map Stage3.player rows))
    /\ Sorted Keys.name_le (map Stage4.agg_player (Stage4.aggregate rows)).
Proof.
  intros rows. rewrite aggregate_players. split; [|split].
  - apply sorted_keys_NoDup.
  - intros p. apply sorted_keys_In.
  - apply sorted_keys_Sorted.
Qed.

Section Conservation.
Import Stage3 Stage4.

(** Sum over the keys of the per-key sums: each row counts once. *)
Lemma zsum_pick (K : list string) (q : string) (v : Z) :
  NoDup K -> In q K ->
  zsum (map (fun p => if String.eqb q p then v else 0%Z) K) = v.
Proof.
  induction 1 as [|k t Hk Ht IH]; intros H; [destruct H|].
  simpl. destruct (String.eqb_spec q k) as [E|E].
  - subst k. assert (Z0 : zsum (map (fun p => if String.eqb q p then v else 0%Z) t) = 0%Z).
    { clear - Hk. induction t as [|y t IH]; [reflexivity|]. simpl.
      destruct (String.eqb_spec q y) as [E|E]; [exfalso; apply Hk; simpl; auto|].
      rewrite IH; [reflexivity|]. intros C. apply Hk. simpl. auto. }
    rewrite Z0. lia.
  - destruct H as [H|H]; [congruence|]. rewrite (IH H). lia.
Qed.

Lemma zsum_map_add {A} (f h : A -> Z) (l : list A) :
  zsum (map (fun x => (f x + h x)%Z) l) = (zsum (map f l) + zsum (map h l))%Z.
Proof. induction l as [|x t IH]; simpl; [reflexivity | rewrite IH; lia]. Qed.

Lemma zsum_by_key (f : MatchRow -> Z) (K : list string) (rows : list MatchRow) :
  NoDup K -> (forall r, In r rows -> In (player r) K) ->
  zsum (map (fun p => zsum (map f (rows_of p rows))) K) = zsum (map f rows).
Proof.
  intros N. induction rows as [|r t IH]; intros H.
  - simpl. induction K as [|k K' IHK]; [reflexivity|]. simpl.
    inversion N; subst. rewrite IHK; [reflexivity | assumption | intros ? []].
  - simpl. rewrite <- IH by (intros x Hx; apply H; simpl; auto).
    rewrite <- (zsum_pick K (player r) (f r) N) at 1 by (apply H; simpl; auto).
    rewrite <- zsum_map_add. f_equal. apply map_ext. intros p.
    unfold rows_of. simpl.
    destruct (String.eqb (player r) p); reflexivity.
Qed.

Lemma qsum_pick (K : list string) (q : string) (v : Q) :
  NoDup K -> In q K ->
  qsum (map (fun p => if String.eqb q p then v else 0) K) == v.
Proof.
  induction 1 as [|k t Hk Ht IH]; intros H; [destruct H|].
  simpl. destruct (String.eqb_spec q k) as [E|E].
  - subst k. assert (Z0 : qsum (map (fun p => if String.eqb q p then v else 0) t) == 0).
    { clear - Hk. induction t as [|y t IH]; [reflexivity|]. simpl.
      destruct (String.eqb_spec q y) as [E|E]; [exfalso; apply Hk; simpl; auto|].
      rewrite IH; [ring|]. intros C. apply Hk. simpl. auto. }
    rewrite Z0. ring.
  - destruct H as [H|H]; [congruence|]. rewrite (IH H). ring.
Qed.

Lemma qsum_map_add {A} (f h : A -> Q) (l : list A) :
  qsum (map (fun x => f x + h x) l) == qsum (map f l) + qsum (map h l).
Proof. induction l as [|x t IH]; simpl; [ring | rewrite IH; ring]. Qed.

Lemma qsum_map_ext {A} (f h : A -> Q) (l : list A) :
  (forall x, f x == h x) -> qsum (map f l) == qsum (map h l).
Proof.
  intros E. induction l as [|x t IH]; simpl; [reflexivity|].
  rewrite IH, E. reflexivity.
Qed.

Lemma qsum_by_key (f : MatchRow -> Q) (K : list string) (rows : list MatchRow) :
  NoDup K -> (forall r, In r rows -> In (player r) K) ->
  qsum (map (fun p => qsum (map f (rows_of p rows))) K) == qsum (map f rows).
Proof.
  intros N. induction rows as [|r t IH]; intros H.
  - simpl. induction K as [|k K' IHK]; [reflexivity|]. simpl.
    inversion N; subst. rewrite IHK; [ring | assumption | intros ? []].
  - simpl. rewrite <- IH by (intros x Hx; apply H; simpl; auto).
    rewrite <- (qsum_pick K (player r) (f r) N) at 1 by (apply H; simpl; auto).
    rewrite <- qsum_map_add. apply qsum_map_ext. intros p.
    unfold rows_of. simpl.
    destruct (String.eqb (player r) p); simpl; ring.
Qed.

Lemma sorted_keys_cover rows r : In r rows -> In (player r) (sorted_keys rows).
Proof. intros H. apply sorted_keys_In, in_map, H. Qed.

End Conservation.

(** X16.  Aggregation conserves the totals: the aggregated minutes, the
    aggregated match counts and each aggregated counter add up, over the
    players, to the sums over the per-match rows. *)
Theorem aggregate_conserves_totals :
  forall rows : list Stage3.MatchRow,
    Stage4.zsum (map Stage4.agg_minutes_played (Stage4.aggregate rows))
    = Stage4.zsum (map Stage3.minutes_played rows)
    /\ Stage4.zsum (map Stage4.agg_matches_played (Stage4.aggregate rows))
       = Stage4.zsum (map Stage3.matches_played rows)
    /\ forall k,
         Stage4.qsum (map (fun a => Stage4.agg_raw a k) (Stage4.aggregate rows))
         == Stage4.qsum (map (fun r => Stage3.raw r k) rows).
Proof.
  intros rows. unfold Stage4.aggregate. rewrite !map_map. simpl.
  split; [|split].
  - apply zsum_by_key; [apply sorted_keys_NoDup | apply sorted_keys_cover].
  - apply zsum_by_key; [apply sorted_keys_NoDup | apply sorted_keys_cover].
  - intros k. rewrite map_map. simpl.
    apply (qsum_by_key (fun r => Stage3.raw r k));
      [apply sorted_keys_NoDup | apply sorted_keys_cover].
Qed.

Section StoreFacts.
Import Stage4.

Lemma filter_filter {A} (p : A -> bool) (l : list A) :
  filter p (filter p l) = filter p l.
Proof.
  induction l as [|x t IH]; [reflexivity|]. simpl.
  destruct (p x) eqn:E; simpl; [rewrite E|]; rewrite IH; reflexivity.
Qed.

Lemma filter_stored_nil (l : list AggRow) :
  filter (fun r => negb (is_aggregated r)) (map to_stat_row l) = [].
Proof. induction l as [|x t IH]; [reflexivity | exact IH]. Qed.

Lemma store_kept rows ps :
  filter (fun r => negb (is_aggregated r)) (store rows ps)
  = filter (fun r => negb (is_aggregated r)) ps.
Proof.
  unfold store. rewrite filter_app, filter_filter, filter_stored_nil.
  apply app_nil_r.
Qed.

End StoreFacts.

(** X17.  Stage 4 can be run again without duplicating rows: storing
    over a table that already holds an earlier aggregation gives the
    table a single run gives; the rows of other competitions or seasons
    are kept, in order, and every aggregated player gets its row. *)
Theorem store_rerun :
  forall (rows rows' : list Stage3.MatchRow) (player_stats : list Table.StatRow),
    Stage4.store rows (Stage4.store rows' player_stats)
    = Stage4.store rows player_stats
    /\ filter (fun r => negb (Stage4.is_aggregated r))
              (Stage4.store rows player_stats)
       = filter (fun r => negb (Stage4.is_aggregated r)) player_stats
    /\ filter Stage4.is_aggregated (Stage4.store rows player_stats)
       = map Stage4.to_stat_row (Stage4.aggregate rows).
Proof.
  intros rows rows' ps. split; [|split].
  - unfold Stage4.store at 1. rewrite store_kept. reflexivity.
  - apply store_kept.
  - unfold Stage4.store. rewrite filter_app.
    assert (A : forall l, filter Stage4.is_aggregated
                            (filter (fun r => negb (Stage4.is_aggregated r)) l) = []).
    { induction l as [|x t IH]; [reflexivity|]. simpl.
      destruct (Stage4.is_aggregated x) eqn:E; simpl; [|rewrite E]; exact IH. }
    rewrite A. simpl.
    induction (Stage4.aggregate rows) as [|x t IH]; [reflexivity|].
    simpl. f_equal. exact IH.
Qed.

Section MatchRows.
Import Stage3 Stage4.
Variable tally : list Event -> RawStat -> Q.

Lemma player_row_player events q r :
  In r (player_row tally events q) -> player r = q.
Proof. intros H. apply player_row_In in H. destruct H as [_ ->]. reflexivity. Qed.

Lemma rows_of_player_row events p q :
  rows_of p (player_row tally events q)
  = if String.eqb q p then player_row tally events q else [].
Proof.
  unfold rows_of, player_row.
  destruct (minute_max (events_of q events) =? 0)%Z; simpl.
  - destruct (String.eqb q p); reflexivity.
  - destruct (String.eqb q p); reflexivity.
Qed.

Lemma rows_of_flat_map_absent events p U :
  ~ In p U -> rows_of p (flat_map (player_row tally events) U) = [].
Proof.
  induction U as [|q t IH]; intros N; [reflexivity|]. simpl.
  unfold rows_of in *. rewrite filter_app. fold (rows_of p (player_row tally events q)).
  rewrite rows_of_player_row.
  destruct (String.eqb_spec q p) as [E|E]; [exfalso; apply N; simpl; auto|].
  simpl. apply IH. intros C. apply N. simpl. auto.
Qed.

Lemma rows_of_flat_map_present events p U :
  NoDup U -> In p U ->
  rows_of p (flat_map (player_row tally events) U) = player_row tally events p.
Proof.
  induction 1 as [|q t Hq Ht IH]; intros H; [destruct H|]. simpl.
  unfold rows_of in *. rewrite filter_app. fold (rows_of p (player_row tally events q)).
  rewrite rows_of_player_row.
  destruct (String.eqb_spec q p) as [E|E].
  - subst q. fold (rows_of p (flat_map (player_row tally events) t)).
    rewrite rows_of_flat_map_absent by exact Hq. apply app_nil_r.
  - simpl. apply IH. destruct H as [H|H]; [congruence | exact H].
Qed.

Lemma player_row_absent events p :
  ~ In p (unique (dropna_players events)) -> player_row tally events p = [].
Proof.
  intros N. unfold player_row.
  destruct (Z.eqb_spec (minute_max (events_of p events)) 0) as [E|E]; [reflexivity|].
  exfalso. apply N. apply unique_In, dropna_players_In.
  apply minute_max_nonzero_event, E.
Qed.

Lemma rows_of_process_match events p :
  rows_of p (process_match tally events) = player_row tally events p.
Proof.
  unfold process_match.
  destruct (in_dec string_dec p (unique (dropna_players events))) as [H|H].
  - apply rows_of_flat_map_present; [apply unique_NoDup | exact H].
  - rewrite rows_of_flat_map_absent by exact H.
    symmetry. apply player_row_absent, H.
Qed.

Lemma rows_of_process_matches matches p :
  rows_of p (process_matches tally matches)
  = flat_map (fun events => player_row tally events p) matches.
Proof.
  unfold process_matches. induction matches as [|events t IH]; [reflexivity|].
  simpl. unfold rows_of in *. rewrite filter_app.
  fold (rows_of p (process_match tally events)).
  rewrite rows_of_process_match, IH. reflexivity.
Qed.

Lemma process_match_NoDup events :
  NoDup (map player (process_match tally events)).
Proof.
  unfold process_match.
  pose proof (unique_NoDup (dropna_players events)) as N.
  induction N as [|q t Hq Ht IH]; simpl; [constructor|].
  rewrite map_app. unfold player_row at 1.
  destruct (minute_max (events_of q events) =? 0)%Z; simpl; [exact IH|].
  constructor; [|exact IH].
  intros C. apply in_map_iff in C. destruct C as [r [E Hr]].
  apply in_flat_map in Hr. destruct Hr as [q' [Hq' Hr]].
  apply player_row_player in Hr. apply Hq. congruence.
Qed.

Lemma fold_max_upper l m e :
  In e l -> (ev_minute e <= fold_left (fun m e' => Z.max m (ev_minute e')) l m)%Z.
Proof.
  revert m. induction l as [|x t IH]; intros m H; [destruct H|]. simpl.
  destruct H as [-> | H].
  - pose proof (fold_max_ge_init t (Z.max m (ev_minute e))). lia.
  - apply IH, H.
Qed.

Lemma minute_max_upper l e : In e l -> (ev_minute e <= minute_max l)%Z.
Proof.
  destruct l as [|x t]; intros H; [destruct H|]. simpl.
  destruct H as [-> | H]; [apply fold_max_ge_init | apply fold_max_upper, H].
Qed.

End MatchRows.

(** X18.  A match yields at most one row per player: the names of its
    rows are distinct, each row counts one match, and its minutes are
    the player's last event minute, which is not 0 and bounds the minute
    of every event of the player. *)
Theorem process_match_rows :
  forall (tally : list Stage3.Event -> Stage3.RawStat -> Q)
         (events : list Stage3.Event),
    NoDup (map Stage3.player (Stage3.process_match tally events))
    /\ Forall (fun r =>
                 Stage3.matches_played r = 1%Z
                 /\ Stage3.minutes_played r <> 0%Z
                 /\ Stage3.minutes_played r
                    = Stage3.minute_max (Stage3.events_of (Stage3.player r) events)
                 /\ forall e, In e events ->
                              Stage3.ev_player e = Some (Stage3.player r) ->
                              (Stage3.ev_minute e <= Stage3.minutes_played r)%Z)
              (Stage3.process_match tally events).
Proof.
  intros tally events. split; [apply process_match_NoDup|].
  apply Forall_forall. intros r Hr. apply process_match_In in Hr.
  destruct Hr as [N E]. rewrite E. simpl. repeat split; try assumption.
  intros e He Hp. apply minute_max_upper.
  unfold Stage3.events_of. apply filter_In. split; [exact He|].
  rewrite Hp. apply String.eqb_refl.
Qed.

Section Composition.
Import Stage3 Stage4.
Variable tally : list Event -> RawStat -> Q.

Lemma player_rows_minutes matches p :
  zsum (map minutes_played
            (flat_map (fun events => player_row tally events p) matches))
  = zsum (map (fun events => minute_max (events_of p events)) matches).
Proof.
  induction matches as [|events t IH]; [reflexivity|].
  simpl. rewrite map_app. unfold player_row at 1.
  destruct (Z.eqb_spec (minute_max (events_of p events)) 0) as [E|E]; simpl.
  - rewrite IH, E. reflexivity.
  - rewrite IH. reflexivity.
Qed.

Lemma player_rows_matches matches p :
  zsum (map matches_played
            (flat_map (fun events => player_row tally events p) matches))
  = Z.of_nat (length (filter (fun events =>
                                negb (minute_max (events_of p events) =? 0)%Z)
                             matches)).
Proof.
  induction matches as [|events t IH]; [reflexivity|].
  cbn [flat_map filter]. rewrite map_app. unfold player_row at 1.
  destruct (Z.eqb_spec (minute_max (events_of p events)) 0) as [E|E];
    cbn [negb map app length zsum fold_right matches_played].
  - exact IH.
  - fold (zsum (map matches_played
                    (flat_map (fun events => player_row tally events p) t))).
    rewrite IH, Nat2Z.inj_succ. lia.
Qed.

Lemma player_rows_raw matches p k :
  qsum (map (fun r => raw r k)
            (flat_map (fun events => player_row tally events p) matches))
  == qsum (map (fun events =>
                  if (minute_max (events_of p events) =? 0)%Z then 0
                  else tally (events_of p events) k) matches).
Proof.
  induction matches as [|events t IH]; [reflexivity|].
  simpl. rewrite map_app. unfold player_row at 1.
  destruct (Z.eqb_spec (minute_max (events_of p events)) 0) as [E|E]; simpl.
  - rewrite IH. ring.
  - rewrite IH. reflexivity.
Qed.

End Composition.

(** X19.  Stages 3 and 4 together: an aggregated player's
    [minutes_played] is the sum over the matches of the player's last
    event minute, [matches_played] is the number of matches in which
    that minute is not 0, and each counter is the sum of the match
    tallies over those matches. *)
Theorem aggregated_minutes_are_match_sums :
  forall (tally : list Stage3.Event -> Stage3.RawStat -> Q)
         (matches : list (list Stage3.Event)) (a : Stage4.AggRow),
    In a (Stage4.aggregate (Stage3.process_matches tally matches)) ->
    let last events :=
      Stage3.minute_max (Stage3.events_of (Stage4.agg_player a) events) in
    Stage4.agg_minutes_played a = Stage4.zsum (map last matches)
    /\ Stage4.agg_matches_played a
       = Z.of_nat (length (filter (fun events => negb (last events =? 0)%Z)
                                  matches))
    /\ forall k,
         Stage4.agg_raw a k
         == Stage4.qsum
              (map (fun events =>
                      if (last events =? 0)%Z then 0
                      else tally (Stage3.events_of (Stage4.agg_player a) events) k)
                   matches).
Proof.
  intros tally matches a H last. unfold Stage4.aggregate in H.
  apply in_map_iff in H. destruct H as [p [<- _]]. subst last. simpl.
  rewrite rows_of_process_matches. split; [|split].
  - apply player_rows_minutes.
  - apply player_rows_matches.
  - intros k. apply player_rows_raw.
Qed.

Lemma aggregated_minutes_are_match_sums_witness :
  match Stage4.aggregate
          (Stage3.process_matches Examples.tally
             [Examples.match1; Examples.match1]) with
  | a :: _ =>
      Stage4.agg_minutes_played a
      = Stage4.zsum
          (map (fun events =>
                  Stage3.minute_max
                    (Stage3.events_of (Stage4.agg_player a) events))
               [Examples.match1; Examples.match1])
  | [] => True
  end.
Proof.
  pose proof (aggregated_minutes_are_match_sums Examples.tally
                [Examples.match1; Examples.match1]) as H.
  destruct (Stage4.aggregate _) as [|a t]; [exact I|].
  apply (H a). left. reflexivity.
Defined.

(** ** The helpers of the monolithic script, and the guard *)

Section MonolithHelpers.
Import MonolithRatings.

Lemma uplift_band_cases age :
  Stage5.uplift_band age = (6, 2) \/ Stage5.uplift_band age = (4, 1.5)
  \/ Stage5.uplift_band age = (2, 1) \/ Stage5.uplift_band age = (0, 0.5).
Proof.
  unfold Stage5.uplift_band.
  destruct (age <=? 20)%Z; [auto|].
  destruct (age <=? 24)%Z; [auto|].
  destruct (age <=? 28)%Z; auto.
Qed.

Lemma pressure_cases comp_id :
  calculate_pressure_performance comp_id = 1.0 + 0.1
  \/ calculate_pressure_performance comp_id = 1.0 + 0.0.
Proof.
  unfold calculate_pressure_performance.
  destruct (member comp_id _); auto.
Qed.

End MonolithHelpers.

(** X20.  The [compute_PA] of map_stats_bomb_db_fixed.py, with its
    league and versatility bonuses, keeps the shape of the staged one:
    one normal draw, [PA = min(20, CA + max(0, total_uplift))], so
    PA <= 20 and PA >= CA exactly when CA <= 20.  For a coefficient of
    the league table and a versatility factor in [1, 1.2] the part of
    the uplift that is not drawn lies between [base - 0.1] and
    [base + 1.2], [base] the uplift of the age band. *)
Theorem monolith_compute_PA_bounds :
  forall (G : Type) (RS : Rand.RandomState G)
         (ca : Q) (age : Z) (league_coeff versatility_factor : Q) (g : G),
    let z := fst (Rand.normal 0 (snd (Stage5.uplift_band age)) g) in
    let fixed := MonolithRatings.fixed_uplift age league_coeff versatility_factor in
    let pa := fst (MonolithRatings.compute_PA ca age league_coeff
                                              versatility_factor g) in
    pa == Qmin 20 (ca + Qmax 0 (fixed + z))
    /\ pa <= 20
    /\ (ca <= pa <-> ca <= 20)
    /\ snd (MonolithRatings.compute_PA ca age league_coeff versatility_factor g)
       = snd (Rand.normal 0 (snd (Stage5.uplift_band age)) g)
    /\ (0.75 <= league_coeff <= 1.1 -> 1 <= versatility_factor <= 1.2 ->
        fst (Stage5.uplift_band age) - 0.1 <= fixed
        <= fst (Stage5.uplift_band age) + 1.2).
Proof.
  intros G RS ca age lc v g z fixed pa.
  subst z fixed pa. unfold MonolithRatings.compute_PA, MonolithRatings.fixed_uplift.
  destruct (Stage5.uplift_band age) as [b sd]. simpl.
  destruct (Rand.normal 0 sd g) as [z g']. simpl.
  split; [apply PA_of_formula|].
  split; [apply PA_of_le_20|].
  split; [apply PA_of_ge_iff|].
  split; [reflexivity|].
  intros L V. split; lra.
Qed.

Section Versatility.
Import Monolith.

Lemma list_min_member a b c d :
  let m := list_min a [b; c; d] in m = a \/ m = b \/ m = c \/ m = d.
Proof.
  unfold list_min, py_min. simpl.
  repeat match goal with |- context [Qlt_le_dec ?x ?y] => destruct (Qlt_le_dec x y) end;
    auto.
Qed.

End Versatility.

(** X21.  With non-negative position CAs the cap of
    [calculate_versatility_factor] is never reached: the factor is
    [1 + 0.1 * (max - min) / max] itself and lies in [1, 1.1]; it is 1
    when the four position CAs are equal. *)
Theorem versatility_cap_not_reached :
  forall gk de mi fw : Q,
    let M := Monolith.list_max gk [de; mi; fw] in
    let m := Monolith.list_min gk [de; mi; fw] in
    0 <= m ->
    1 <= Monolith.calculate_versatility_factor gk de mi fw <= 1.1
    /\ (0 < M -> Monolith.calculate_versatility_factor gk de mi fw
                 = 1.0 + 0.1 * (M - m) / M)
    /\ (m == M -> Monolith.calculate_versatility_factor gk de mi fw == 1).
Proof.
  intros gk de mi fw M m Hm.
  pose proof (list_min_le_max gk de mi fw) as H. fold M in H. fold m in H.
  unfold Monolith.calculate_versatility_factor. fold M. fold m.
  destruct (Qlt_le_dec 0 M) as [P|P].
  - assert (R : 0 <= 0.1 * (M - m) / M <= 0.1).
    { split.
      - apply Qle_shift_div_l; [exact P | lra].
      - apply Qle_shift_div_r; [exact P | lra]. }
    assert (Z0 : m == M -> 0.1 * (M - m) / M == 0).
    { intros E. rewrite E. unfold Qdiv. ring. }
    set (q := 0.1 * (M - m) / M) in *.
    unfold py_min. destruct (Qlt_le_dec (1.0 + q) 1.2); [|lra].
    split; [lra|]. split; [reflexivity|]. intros E. rewrite (Z0 E). reflexivity.
  - split; [lra|]. split; [lra|]. intros _. reflexivity.
Qed.

Lemma versatility_cap_not_reached_witness :
  1 <= Monolith.calculate_versatility_factor 17.6 16.8 16.8 16 <= 1.1.
Proof.
  apply (versatility_cap_not_reached 17.6 16.8 16.8 16).
  vm_compute. discriminate.
Defined.

Section MonolithPosition.
Import MonolithRatings.

Lemma monolith_position_CA_range comp_id age attrs p :
  (forall a, 1 <= attrs a <= 20) ->
  0.75 <= compute_position_CA comp_id age attrs p <= 26.62.
Proof.
  intros H. unfold compute_position_CA.
  pose proof (base_ca_le_20 attrs p (fun a => proj2 (H a))) as B.
  pose proof (base_ca_ge_1 attrs p (fun a => proj1 (H a))) as B1.
  pose proof (get_league_coefficient_range comp_id) as R.
  set (b := fold_left _ _ _) in *.
  set (c := Stage5.get_league_coefficient _) in *.
  assert (P : b * c <= 22).
  { apply Qle_trans with (20 * c); [|lra]. apply Qmult_le_compat_r; lra. }
  assert (P1 : 0.75 <= b * c).
  { apply Qle_trans with (1 * c); [lra|]. apply Qmult_le_compat_r; lra. }
  set (bc := b * c) in *.
  set (a := match age with Some a => a | None => 25%Z end).
  destruct (position_age_factor_cases p a) as [-> | [-> | ->]];
    destruct (pressure_cases comp_id) as [-> | ->]; split;
    first [ apply (round2_ge _ 75); lra
          | apply (round2_le_q _ _ 2662); [reflexivity | lra] ].
Qed.

End MonolithPosition.

(** X22.  The position CA of map_stats_bomb_db_fixed.py is the staged
    one times the pressure factor, inside the rounding: for a
    competition other than 37, 43 and 50 the two scripts compute the
    same position CA from the same attributes and age, for those three
    the value is scaled by 1.1 before rounding; with attributes in
    [1, 20] it always lies in [0.75, 26.62]. *)
Theorem monolith_position_CA :
  forall (st : Table.StatRow) (age : Z) (attrs : Stage5.Attr -> Q)
         (p : Stage5.Position),
    let comp_id := Table.competition_id st in
    let row := {| Stage5.stats := st; Stage5.age := age |} in
    (MonolithRatings.member comp_id [37; 43; 50]%Z = false ->
     MonolithRatings.compute_position_CA comp_id (Some age) attrs p
     = Stage5.compute_position_CA row attrs p)
    /\ (MonolithRatings.member comp_id [37; 43; 50]%Z = true ->
        MonolithRatings.calculate_pressure_performance comp_id == 1.1)
    /\ ((forall a, 1 <= attrs a <= 20) ->
        0.75 <= MonolithRatings.compute_position_CA comp_id (Some age) attrs p
        <= 26.62).
Proof.
  intros st age attrs p comp_id row. split; [|split].
  - intros N. unfold MonolithRatings.compute_position_CA,
      Stage5.compute_position_CA, MonolithRatings.calculate_pressure_performance.
    fold comp_id. rewrite N. apply round2_comp. subst row comp_id.
    cbn [Stage5.stats Stage5.age]. ring.
  - intros Y. unfold MonolithRatings.calculate_pressure_performance.
    rewrite Y. reflexivity.
  - apply monolith_position_CA_range.
Qed.

Section PipelineGuard.
Import Stage3 Stage4.



End PipelineGuard.

